(** * EnsoAI: the stream-json decoder, the review session and the IDE bridge

    A shallow embedding of
    - [src/renderer/lib/stream-json-parser.ts]  (module [StreamJsonParser]),
    - the [useCodeReview] hook                  (module [CodeReview]),
    - [src/main/services/claude/ClaudeIdeBridge.ts] (modules [LockFile],
      [JsonRpc] and [Bridge]),
    - [mcpTools.ts]                             ([MCP_TOOLS]),
    together with the properties of the specification that concern them. *)

From Stdlib Require Import ZArith NArith String Ascii SpecFloat DecimalString DecimalNat.
From stdpp Require Import base decidable option list gmap.

Local Open Scope N_scope.
Local Open Scope nat_scope.

(** ** JavaScript values

    A JavaScript string is a sequence of UTF-16 code units.  The regular
    expressions, [trim] and [split] of the sources all work on code units, so
    a string is a list of them. *)
Module JS.

Definition jsstring : Type := list N.

(** A string literal of the sources (all of them are ASCII). *)
Definition js (s : string) : jsstring :=
  map N_of_ascii (list_ascii_of_string s).

(** A [number] is an IEEE 754 double. *)
Definition number : Type := spec_float.

(** The double nearest to an integer. *)
Definition number_of_Z (z : Z) : number := binary_normalize 53 1024 z 0 false.

Set Warnings "-register-all".

(** The values [JSON.parse] can produce.  An object is the list of its own
    properties in the order [Object.keys] enumerates them. *)
Inductive json : Type :=
| JNull
| JBool (b : bool)
| JNum (x : number)
| JStr (s : jsstring)
| JArr (l : list json)
| JObj (props : list (jsstring * json)).

(** [ToBoolean]: the falsy values are [undefined], [null], [false], [+0], [-0],
    [NaN] and the empty string. *)
Definition truthy (v : json) : bool :=
  match v with
  | JNull => false
  | JBool b => b
  | JNum (S754_zero _) | JNum S754_nan => false
  | JNum _ => true
  | JStr s => match s with [] => false | _ => true end
  | JArr _ | JObj _ => true
  end.

(** [undefined] is the [None] of an [option json]. *)
Definition truthy_opt (v : option json) : bool :=
  match v with Some v => truthy v | None => false end.

(** [a || null] *)
Definition or_null (a : option json) : json :=
  match a with
  | Some v => if truthy v then v else JNull
  | None => JNull
  end.

(** The own property [k] of an object. *)
Fixpoint lookup_prop (k : jsstring) (props : list (jsstring * json)) : option json :=
  match props with
  | [] => None
  | (k', v) :: rest => if bool_decide (k' = k) then Some v else lookup_prop k rest
  end.

(** [v.k] for a value [v] that is neither [null] nor [undefined], and a
    name [k] that is neither ["length"] nor an index: primitives and arrays
    have no such property. *)
Definition get_prop (v : json) (k : jsstring) : option json :=
  match v with
  | JObj props => lookup_prop k props
  | _ => None
  end.

(** [v?.k] *)
Definition opt_chain (v : option json) (k : jsstring) : option json :=
  match v with
  | None | Some JNull => None
  | Some v => get_prop v k
  end.

(** [v === 'lit'] *)
Definition is_str (v : option json) (lit : jsstring) : bool :=
  match v with
  | Some (JStr s) => bool_decide (s = lit)
  | _ => false
  end.

(** [typeof v === 'string'], [typeof v === 'number'] *)
Definition typeof_string (v : option json) : bool :=
  match v with Some (JStr _) => true | _ => false end.

Definition typeof_number (v : option json) : bool :=
  match v with Some (JNum _) => true | _ => false end.

(** The decimal numeral of a natural number, as [String(n)] prints it. *)
Definition decimal (n : nat) : jsstring :=
  js (NilEmpty.string_of_uint (Nat.to_uint n)).

(** [Object.keys(v)] for a truthy [v]: the keys of an object, the indices of
    an array or of a string, nothing for a number or a boolean. *)
Definition Object_keys (v : json) : list jsstring :=
  match v with
  | JObj props => map fst props
  | JArr l => map decimal (seq 0 (length l))
  | JStr s => map decimal (seq 0 (length s))
  | _ => []
  end.

End JS.
Import JS.

(** ** Regular expressions

    A backtracking matcher for the fragment of JavaScript regular expressions
    that the sources use: character classes, sequence, and the greedy
    quantifiers [?], [*] and [{lo,hi}]. *)
Module Regex.

Inductive regex : Type :=
| Class (p : N -> bool)
| Seq (a b : regex)
| Opt (a : regex)
| Star (a : regex)
| Rep (lo hi : nat) (a : regex).

Definition orelse {A} (x y : option A) : option A :=
  match x with Some _ => x | None => y end.

(** [rmatch r s k]: match [r] at the start of [s], then go on with the
    continuation [k] on the rest; alternatives are tried in the priority order
    of the backtracking semantics (greedy: one more iteration first).  An
    iteration of [*] that consumes nothing is refused, as in ECMAScript. *)
Fixpoint rmatch (r : regex) (s : jsstring)
    (k : jsstring -> option jsstring) {struct r} : option jsstring :=
  match r with
  | Class p =>
      match s with
      | c :: t => if p c then k t else None
      | [] => None
      end
  | Seq a b => rmatch a s (fun s' => rmatch b s' k)
  | Opt a => orelse (rmatch a s k) (k s)
  | Star a =>
      (fix star (fuel : nat) (s : jsstring) (k : jsstring -> option jsstring) :=
         match fuel with
         | O => k s
         | S fuel' =>
             orelse
               (rmatch a s (fun s' =>
                  if decide (length s' < length s) then star fuel' s' k else None))
               (k s)
         end) (length s) s k
  | Rep lo hi a =>
      (fix rep (hi lo : nat) (s : jsstring) (k : jsstring -> option jsstring) :=
         match hi with
         | O => match lo with O => k s | S _ => None end
         | S hi' =>
             match lo with
             | S lo' => rmatch a s (fun s' => rep hi' lo' s' k)
             | O => orelse (rmatch a s (fun s' => rep hi' O s' k)) (k s)
             end
         end) hi lo s k
  end.

(** The number of code units of the match of [r] at the start of [s]. *)
Definition match_length (r : regex) (s : jsstring) : option nat :=
  match rmatch r s Some with
  | Some rest => Some (length s - length rest)
  | None => None
  end.

(** [s.replace(r, '')] for a global [r]: every match, found left to right,
    is removed.  [skip] counts the code units of the current match that are
    still to be dropped. *)
Fixpoint remove_from (r : regex) (skip : nat) (s : jsstring) : jsstring :=
  match s with
  | [] => []
  | c :: t =>
      match skip with
      | S n => remove_from r n t
      | O =>
          match match_length r s with
          | Some (S n) => remove_from r n t
          | Some O | None => c :: remove_from r O t
          end
      end
  end.

Definition remove_all (r : regex) (s : jsstring) : jsstring := remove_from r 0 s.

Definition one_of (cs : string) : N -> bool :=
  fun c => bool_decide (c ∈ js cs).

Definition range (lo hi : string) : N -> bool :=
  fun c => match js lo, js hi with
           | [l], [h] => (l <=? c)%N && (c <=? h)%N
           | _, _ => false
           end.

Definition digit : N -> bool := range "0" "9".

End Regex.

(** ** [stream-json-parser.ts] *)
Module StreamJsonParser.
Import Regex.

(** [ansiRegex], piece by piece:
    - the introducer, one of the code units 0x1b and 0x9b;
    - any number of opening square brackets and of the characters
      ( ) # ; and ?;
    - optionally: one to four digits, then any number of groups made of
      a semicolon and up to four digits;
    - the final character: a digit, A to O, R, Z, c, f to n, q, r, y, =,
      > or <.
    All quantifiers are greedy. *)
Definition ansiRegex : regex :=
  Seq (Class (fun c => bool_decide (c = 0x1b%N) || bool_decide (c = 0x9b%N)))
 (Seq (Star (Class (one_of "[()#;?")))
 (Seq (Opt (Seq (Rep 1 4 (Class digit))
                (Star (Seq (Class (one_of ";")) (Rep 0 4 (Class digit))))))
      (Class (fun c => digit c || range "A" "O" c || one_of "RZc" c
                       || range "f" "n" c || one_of "qry=><" c)))).

(** The code units [String.prototype.trim] removes: WhiteSpace and
    LineTerminator of ECMAScript. *)
Definition is_space (c : N) : bool :=
  ((0x09 <=? c) && (c <=? 0x0D) || bool_decide (c = 0x20) || bool_decide (c = 0xA0)
   || bool_decide (c = 0x1680) || (0x2000 <=? c) && (c <=? 0x200A)
   || bool_decide (c = 0x2028) || bool_decide (c = 0x2029)
   || bool_decide (c = 0x202F) || bool_decide (c = 0x205F)
   || bool_decide (c = 0x3000) || bool_decide (c = 0xFEFF))%N.

(** [s.trimStart()] and [s.trim()] *)
Fixpoint trimStart (s : jsstring) : jsstring :=
  match s with
  | c :: t => if is_space c then trimStart t else s
  | [] => []
  end.

Definition trim (s : jsstring) : jsstring :=
  rev (trimStart (rev (trimStart s))).

(** Line feed and carriage return. *)
Definition LF : N := 10%N.
Definition CR : N := 13%N.

(** [s.split(/\r?\n/)]: the pieces of [s] between the matches of the
    separator, found left to right; a match is a line feed, together with
    the carriage return just before it when there is one.  The result is
    never empty: its last element is what follows the last separator. *)
Fixpoint split (s : jsstring) : list jsstring :=
  match s with
  | [] => [[]]
  | c :: t =>
      if bool_decide (c = LF) then [] :: split t
      else
        match t with
        | c' :: t' =>
            if bool_decide (c = CR) && bool_decide (c' = LF) then [] :: split t'
            else match split t with
                 | l :: ls => (c :: l) :: ls
                 | [] => [[c]]
                 end
        | [] => [[c]]
        end
  end.

(** [lines.pop()]: the array without its last element, and that element
    ([undefined] for an empty array). *)
Definition pop {A} (l : list A) : list A * option A :=
  (removelast l, last l).

(** The state of a [StreamJsonParser]: its [buffer]. *)
Record t : Type := { buffer : jsstring }.

(** [new StreamJsonParser()] *)
Definition new : t := {| buffer := [] |}.

(** [reset()] *)
Definition reset (this : t) : t := {| buffer := [] |}.

Section Parse.

(** [JSON.parse]; [None] when it throws. *)
Variable JSON_parse : jsstring -> option json.

(** The body of the loop of [parse]: the events one line adds. *)
Definition parse_line (line : jsstring) : list json :=
  let cleanLine := trim (remove_all ansiRegex line) in
  match cleanLine with
  | [] => []
  | c :: _ =>
      if bool_decide (c = 123%N) then
        match JSON_parse cleanLine with
        | Some event => [event]
        | None => []
        end
      else []
  end.

(** [parse(chunk)]: the parser afterwards and the events returned.  A line
    that starts with an opening brace (code unit 123) is given to
    [JSON.parse]. *)
Definition parse (this : t) (chunk : jsstring) : t * list json :=
  let buffer1 := buffer this ++ chunk in
  let '(lines, last_line) := pop (split buffer1) in
  let buffer2 := match last_line with Some l => l | None => [] end in
  ({| buffer := buffer2 |}, concat (map parse_line lines)).

(** Successive calls of [parse] on one parser: the events of all calls, in
    order. *)
Fixpoint parse_all (this : t) (chunks : list jsstring) : t * list json :=
  match chunks with
  | [] => (this, [])
  | chunk :: rest =>
      let '(this1, events1) := parse this chunk in
      let '(this2, events2) := parse_all this1 rest in
      (this2, events1 ++ events2)
  end.

End Parse.

(** ** The classifiers *)

(** A [StreamEvent] is an object: the list of its own properties. *)
Definition StreamEvent : Type := list (jsstring * json).

Definition prop (event : StreamEvent) (k : string) : option json :=
  lookup_prop (js k) event.

(** [extractTextDelta(event)] *)
Definition extractTextDelta (event : StreamEvent) : json :=
  if is_str (prop event "type") (js "stream_event")
     && is_str (opt_chain (prop event "event") (js "type")) (js "content_block_delta")
  then or_null (opt_chain (opt_chain (prop event "event") (js "delta")) (js "text"))
  else JNull.

(** [isMessageEndEvent(event)] *)
Definition isMessageEndEvent (event : StreamEvent) : bool :=
  is_str (prop event "type") (js "stream_event")
  && is_str (opt_chain (prop event "event") (js "type")) (js "message_stop").

(** [isInitEvent(event)] *)
Definition isInitEvent (event : StreamEvent) : bool :=
  is_str (prop event "type") (js "system") && is_str (prop event "subtype") (js "init").

(** [isStreamEvent(event)] *)
Definition isStreamEvent (event : StreamEvent) : bool :=
  is_str (prop event "type") (js "stream_event").

(** [isResultEvent(event)] *)
Definition isResultEvent (event : StreamEvent) : bool :=
  is_str (prop event "type") (js "result").

(** [isErrorEvent(event)] *)
Definition isErrorEvent (event : StreamEvent) : bool :=
  is_str (prop event "type") (js "system") && is_str (prop event "subtype") (js "error").

(** [extractCost(event)] *)
Definition extractCost (event : StreamEvent) : json :=
  if is_str (prop event "type") (js "result") && typeof_number (prop event "total_cost_usd")
  then match prop event "total_cost_usd" with Some v => v | None => JNull end
  else JNull.

(** [extractModel(event)] *)
Definition extractModel (event : StreamEvent) : json :=
  if is_str (prop event "type") (js "result") then
    if typeof_string (prop event "model") then
      match prop event "model" with Some v => v | None => JNull end
    else
      match prop event "modelUsage" with
      | Some modelUsage =>
          if truthy modelUsage then
            let models := Object_keys modelUsage in
            if 0 <? length models then
              match models with m :: _ => JStr m | [] => JNull end
            else JNull
          else JNull
      | None => JNull
      end
  else JNull.

End StreamJsonParser.

(** ** The [useCodeReview] hook *)
Module CodeReview.
Import StreamJsonParser.

(** [ReviewStatus] *)
Inductive ReviewStatus : Type := idle | initializing | streaming | complete | error.

#[global] Instance ReviewStatus_eq_dec : EqDecision ReviewStatus.
Proof. solve_decision. Defined.

(** The strings the hook stores as its error. *)
Inductive error_text : Type :=
| Text (s : string)
| ToStringOr (v : json) (fallback : string)  (* [v.toString() || fallback] *)
| ExitedWithCode (exitCode : Z)               (* [`Process exited with code ${exitCode}`] *)
| Thrown.                                     (* the message of the exception caught *)

(** The state of the hook: its five [useState] cells and its three refs,
    together with the two listeners it has registered on the terminal.
    [content] is kept as the list of the pieces appended to it, in order:
    the string is their concatenation.  An exit listener remembers the
    [status] of the closure of [startReview] that registered it. *)
Record hook : Type := {
  content : list json;
  status : ReviewStatus;
  errorText : option error_text;
  cost : json;
  model : json;
  parser : StreamJsonParser.t;
  ptyId : option jsstring;
  onDataListener : option jsstring;
  onExitListener : option (jsstring * ReviewStatus);
  destroyed : list jsstring;
}.

Definition setContent (f : list json -> list json) (h : hook) : hook :=
  {| content := f (content h); status := status h; errorText := errorText h;
     cost := cost h; model := model h; parser := parser h; ptyId := ptyId h;
     onDataListener := onDataListener h; onExitListener := onExitListener h;
     destroyed := destroyed h |}.

Definition setStatus (s : ReviewStatus) (h : hook) : hook :=
  {| content := content h; status := s; errorText := errorText h;
     cost := cost h; model := model h; parser := parser h; ptyId := ptyId h;
     onDataListener := onDataListener h; onExitListener := onExitListener h;
     destroyed := destroyed h |}.

Definition setError (e : option error_text) (h : hook) : hook :=
  {| content := content h; status := status h; errorText := e;
     cost := cost h; model := model h; parser := parser h; ptyId := ptyId h;
     onDataListener := onDataListener h; onExitListener := onExitListener h;
     destroyed := destroyed h |}.

Definition setCost (c : json) (h : hook) : hook :=
  {| content := content h; status := status h; errorText := errorText h;
     cost := c; model := model h; parser := parser h; ptyId := ptyId h;
     onDataListener := onDataListener h; onExitListener := onExitListener h;
     destroyed := destroyed h |}.

Definition setModel (m : json) (h : hook) : hook :=
  {| content := content h; status := status h; errorText := errorText h;
     cost := cost h; model := m; parser := parser h; ptyId := ptyId h;
     onDataListener := onDataListener h; onExitListener := onExitListener h;
     destroyed := destroyed h |}.

Definition setParser (p : StreamJsonParser.t) (h : hook) : hook :=
  {| content := content h; status := status h; errorText := errorText h;
     cost := cost h; model := model h; parser := p; ptyId := ptyId h;
     onDataListener := onDataListener h; onExitListener := onExitListener h;
     destroyed := destroyed h |}.

Definition setPtyId (p : option jsstring) (h : hook) : hook :=
  {| content := content h; status := status h; errorText := errorText h;
     cost := cost h; model := model h; parser := parser h; ptyId := p;
     onDataListener := onDataListener h; onExitListener := onExitListener h;
     destroyed := destroyed h |}.

Definition setListeners (d : option jsstring) (x : option (jsstring * ReviewStatus))
    (h : hook) : hook :=
  {| content := content h; status := status h; errorText := errorText h;
     cost := cost h; model := model h; parser := parser h; ptyId := ptyId h;
     onDataListener := d; onExitListener := x; destroyed := destroyed h |}.

Definition destroy (p : jsstring) (h : hook) : hook :=
  {| content := content h; status := status h; errorText := errorText h;
     cost := cost h; model := model h; parser := parser h; ptyId := ptyId h;
     onDataListener := onDataListener h; onExitListener := onExitListener h;
     destroyed := destroyed h ++ [p] |}.

(** The hook at its first render. *)
Definition initial : hook :=
  {| content := []; status := idle; errorText := None; cost := JNull; model := JNull;
     parser := StreamJsonParser.new; ptyId := None;
     onDataListener := None; onExitListener := None; destroyed := [] |}.

(** [cleanup()]: the registered listeners are removed and the terminal, if
    the ref holds one, is destroyed. *)
Definition cleanup (h : hook) : hook :=
  let h := setListeners None None h in
  match ptyId h with
  | Some (c :: r) => setPtyId None (destroy (c :: r) h)
  | Some [] | None => h
  end.

(** [handleEvent(event)] *)
Definition handleEvent (event : StreamEvent) (h : hook) : hook :=
  if isInitEvent event then setStatus streaming h
  else
    let text := extractTextDelta event in
    let h := if truthy text then setContent (fun prev => prev ++ [text]) h else h in
    let h := if isMessageEndEvent event
             then setContent (fun prev => prev ++ [JStr [LF; LF]]) h else h in
    let h := if isResultEvent event then
               let totalCost := extractCost event in
               let h := match totalCost with JNull => h | _ => setCost totalCost h end in
               let modelName := extractModel event in
               let h := match modelName with JNull => h | _ => setModel modelName h end in
               setStatus complete h
             else h in
    if isErrorEvent event then
      setError (Some (match prop event "message" with
                      | None | Some JNull => Text "Unknown error"
                      | Some v => ToStringOr v "Unknown error"
                      end))
               (setStatus error h)
    else h.


(** [startReview()], called with the hook in state [h]; [repoPath] is the
    option of the hook, and [created] what [terminal.create] gives: the id
    of the new terminal, or [None] when the promise is rejected.  The
    exit listener closes over the [status] of the render [startReview]
    comes from. *)
Definition startReview (repoPath : option jsstring) (created : option jsstring)
    (h : hook) : hook :=
  match repoPath with
  | None | Some [] => setStatus error (setError (Some (Text "No repository path")) h)
  | Some _ =>
      let captured := status h in
      let h := setContent (fun _ => []) h in
      let h := setError None h in
      let h := setCost JNull h in
      let h := setModel JNull h in
      let h := setStatus initializing h in
      let h := setParser (StreamJsonParser.reset (parser h)) h in
      let h := cleanup h in
      match created with
      | Some id => setListeners (Some id) (Some (id, captured)) (setPtyId (Some id) h)
      | None => setError (Some Thrown) (setStatus error h)
      end
  end.

(** The listener given to [terminal.onExit], fired with [{ id, exitCode }]. *)
Definition onExit (id : jsstring) (exitCode : Z) (h : hook) : hook :=
  match onExitListener h with
  | None => h
  | Some (ptyId, status) =>
      if bool_decide (id ≠ ptyId) then h
      else
        let h :=
          if bool_decide (exitCode ≠ 0%Z) && bool_decide (status ≠ complete) then
            setError (Some (ExitedWithCode exitCode)) (setStatus error h)
          else if bool_decide (status ≠ error) then setStatus complete h
          else h in
        setPtyId None h
  end.


(** [reset()] *)
Definition reset (h : hook) : hook :=
  let h := cleanup h in
  let h := setContent (fun _ => []) h in
  let h := setError None h in
  let h := setCost JNull h in
  let h := setModel JNull h in
  let h := setStatus idle h in
  setParser (StreamJsonParser.reset (parser h)) h.

Section OnData.

Variable JSON_parse : jsstring -> option json.


End OnData.

End CodeReview.

(** ** [ClaudeIdeBridge.ts]: the lock file *)
Module LockFile.

(** What a function gives: a value, or the exception it throws. *)
Inductive result (A : Type) : Type :=
| Ok (a : A)
| Throw (code : string).
Arguments Ok {A} a.
Arguments Throw {A} code.

(** Sequencing: an exception ends the computation. *)
#[global] Instance result_bind : MBind result :=
  fun A B (f : A -> result B) (r : result A) =>
    match r with Ok a => f a | Throw e => Throw e end.

(** The file system: what is at each path, a file with its content and
    mode, or a directory with its mode. *)
Inductive entry : Type :=
| File (content : jsstring) (mode : N)
| Dir (mode : N).

Abbreviation filesystem := (gmap jsstring entry).

(** [fs.mkdirSync(dir, { recursive: true, mode })]: nothing to do when the
    directory exists. *)
Definition mkdirSync (dir : jsstring) (mode : N) (fs : filesystem) : result filesystem :=
  match fs !! dir with
  | None => Ok (<[dir := Dir mode]> fs)
  | Some (Dir _) => Ok fs
  | Some (File _ _) => Throw "EEXIST"
  end.

(** [fs.writeFileSync(path, data, { mode })]: the content is replaced; the
    mode is that of a file that has to be created. *)
Definition writeFileSync (path data : jsstring) (mode : N) (fs : filesystem)
    : result filesystem :=
  match fs !! path with
  | None => Ok (<[path := File data mode]> fs)
  | Some (File _ m) => Ok (<[path := File data m]> fs)
  | Some (Dir _) => Throw "EISDIR"
  end.

(** [fs.readFileSync(path, 'utf-8')] *)
Definition readFileSync (path : jsstring) (fs : filesystem) : result jsstring :=
  match fs !! path with
  | Some (File content _) => Ok content
  | Some (Dir _) => Throw "EISDIR"
  | None => Throw "ENOENT"
  end.

(** [fs.existsSync(path)] *)
Definition existsSync (path : jsstring) (fs : filesystem) : bool :=
  bool_decide (is_Some (fs !! path)).

(** [fs.unlinkSync(path)] *)
Definition unlinkSync (path : jsstring) (fs : filesystem) : result filesystem :=
  match fs !! path with
  | Some (File _ _) => Ok (delete path fs)
  | Some (Dir _) => Throw "EPERM"
  | None => Throw "ENOENT"
  end.

(** What the functions read of [process] and [os]. *)
Record process : Type := {
  env_CLAUDE_CONFIG_DIR : option jsstring;
  homedir : jsstring;
  pid : Z;
  platform : jsstring;
}.

(** [LockFilePayload] *)
Record LockFilePayload : Type := {
  payload_pid : Z;
  workspaceFolders : list jsstring;
  ideName : jsstring;
  transport : jsstring;
  runningInWindows : bool;
  authToken : jsstring;
}.

(** The payload as the object [JSON.stringify] is given: the properties of
    the object literal, in its order. *)
Definition payload_object (p : LockFilePayload) : json :=
  JObj [(js "pid", JNum (number_of_Z (payload_pid p)));
        (js "workspaceFolders", JArr (map JStr (workspaceFolders p)));
        (js "ideName", JStr (ideName p));
        (js "transport", JStr (transport p));
        (js "runningInWindows", JBool (runningInWindows p));
        (js "authToken", JStr (authToken p))].

(** The modes [0o700] and [0o600]. *)
Definition mode_700 : N := 448%N.
Definition mode_600 : N := 384%N.

(** [`${port}.lock`] *)
Definition lock_name (port : nat) : jsstring := decimal port ++ js ".lock".

Section Files.

(** [path.join] and [JSON.stringify] of the platform. *)
Variable path_join : list jsstring -> jsstring.
Variable JSON_stringify : json -> jsstring.
(** [JSON.parse]; [None] when it throws. *)
Variable JSON_parse : jsstring -> option json.

Variable proc : process.

(** [ensureDir(dir)] *)
Definition ensureDir (dir : jsstring) (fs : filesystem) : result filesystem :=
  mkdirSync dir mode_700 fs.

(** [getIdeDir()] *)
Definition getIdeDir : jsstring :=
  match env_CLAUDE_CONFIG_DIR proc with
  | Some (c :: r) => path_join [c :: r; js "ide"]
  | Some [] | None => path_join [homedir proc; js ".claude"; js "ide"]
  end.

(** The payload [writeLockFile] builds. *)
Definition lock_payload (authToken : jsstring) (workspaceFolders : list jsstring)
    (ideName : jsstring) : LockFilePayload :=
  {| payload_pid := pid proc;
     workspaceFolders := workspaceFolders;
     ideName := ideName;
     transport := js "ws";
     runningInWindows := bool_decide (platform proc = js "win32");
     authToken := authToken |}.

(** [writeLockFile({ port, authToken, workspaceFolders, ideName })]; an
    argument left out is [None] and takes its default. *)
Definition writeLockFile (port : nat) (authToken : jsstring)
    (workspaceFolders : option (list jsstring)) (ideName : option jsstring)
    (fs : filesystem) : result (filesystem * jsstring) :=
  let workspaceFolders := default [] workspaceFolders in
  let ideName := default (js "EnsoAI") ideName in
  let ideDir := getIdeDir in
  fs ← ensureDir ideDir fs;
  let lockPath := path_join [ideDir; lock_name port] in
  let payload := lock_payload authToken workspaceFolders ideName in
  fs ← writeFileSync lockPath (JSON_stringify (payload_object payload)) mode_600 fs;
  Ok (fs, lockPath).

(** [deleteLockFile(port)]: whatever is thrown is caught and dropped. *)
Definition deleteLockFile (port : nat) (fs : filesystem) : filesystem :=
  let lockPath := path_join [getIdeDir; lock_name port] in
  let attempt :=
    if existsSync lockPath fs then unlinkSync lockPath fs else Ok fs in
  match attempt with
  | Ok fs' => fs'
  | Throw _ => fs
  end.

(** What a reader of the lock file gets: the file read and parsed. *)
Definition read_back (lockPath : jsstring) (fs : filesystem) : result json :=
  text ← readFileSync lockPath fs;
  match JSON_parse text with
  | Some v => Ok v
  | None => Throw "SyntaxError"
  end.

End Files.

End LockFile.

(** ** [mcpTools.ts] *)
Module McpTools.

(** [McpTool] *)
Record McpTool : Type := {
  name : jsstring;
  description : jsstring;
  inputSchema : json;
}.

(** [MCP_TOOLS]: no tools exposed. *)
Definition MCP_TOOLS : list McpTool := [].

Definition tool_object (t : McpTool) : json :=
  JObj [(js "name", JStr (name t)); (js "description", JStr (description t));
        (js "inputSchema", inputSchema t)].

End McpTools.

(** ** [ClaudeIdeBridge.ts]: the JSON-RPC handler *)
Module JsonRpc.
Import McpTools.

(** The [message] of an error response. *)
Inductive message : Type :=
| Lit (s : string)
| Template (prefix : string) (v : option json).  (* [`${prefix}${v}`] *)

(** The objects the bridge serialises and sends: a response with a result
    ([reply]), a response with an error ([error]), and a notification
    ([sendNotification]); all carry [jsonrpc: '2.0']. *)
Inductive frame : Type :=
| Result (id : json) (result : json)
| Error (id : json) (code : Z) (msg : message)
| Notification (method : jsstring) (params : json).

(** The result of [initialize]. *)
Definition initialize_result (ideName : jsstring) : json :=
  JObj [(js "protocolVersion", JStr (js "2024-11-05"));
        (js "capabilities",
         JObj [(js "logging", JObj []);
               (js "prompts", JObj [(js "listChanged", JBool true)]);
               (js "resources", JObj [(js "subscribe", JBool true);
                                      (js "listChanged", JBool true)]);
               (js "tools", JObj [(js "listChanged", JBool true)])]);
        (js "serverInfo", JObj [(js "name", JStr ideName);
                                (js "version", JStr (js "0.0.1"))])].

(** The result of [tools/list]: [{ tools: MCP_TOOLS }]. *)
Definition tools_list_result : json :=
  JObj [(js "tools", JArr (map tool_object MCP_TOOLS))].

(** [onMessage], after [safeJsonParse]: [msg] is [None] when the text does
    not parse.  [initialized] is the variable of the closure; the function
    gives its new value and the frames sent on [ws], in order. *)
Definition onMessage (ideName : jsstring) (initialized : bool) (msg : option json)
    : bool * list frame :=
  match msg with
  | None => (initialized, [])
  | Some msg =>
      if negb (truthy msg) || negb (is_str (get_prop msg (js "jsonrpc")) (js "2.0"))
      then (initialized, [])
      else
        let method := get_prop msg (js "method") in
        match get_prop msg (js "id") with
        | None =>
            (* Notification (no id) *)
            (if is_str method (js "notifications/initialized") then true else initialized,
             [])
        | Some id =>
            let params := get_prop msg (js "params") in
            if is_str method (js "ping") then
              (initialized, [Result id (JObj [])])
            else if is_str method (js "initialize") then
              (initialized, [Result id (initialize_result ideName)])
            else if negb initialized && negb (is_str method (js "ping")) then
              (initialized, [Error id (-32002) (Lit "Server not initialized")])
            else if is_str method (js "tools/list") then
              (initialized, [Result id tools_list_result])
            else if is_str method (js "prompts/list") then
              (initialized, [Result id (JObj [(js "prompts", JArr [])])])
            else if is_str method (js "resources/list") then
              (initialized, [Result id (JObj [(js "resources", JArr [])])])
            else if is_str method (js "tools/call") then
              let toolName := opt_chain params (js "name") in
              (initialized, [Error id (-32601) (Template "Tool not found: " toolName)])
            else
              (initialized, [Error id (-32601) (Template "Method not found: " method)])
        end
  end.

(** One handler fed a sequence of messages: the flag at the end and the
    frames sent for each message. *)
Fixpoint onMessages (ideName : jsstring) (initialized : bool) (msgs : list (option json))
    : bool * list (list frame) :=
  match msgs with
  | [] => (initialized, [])
  | msg :: rest =>
      let '(initialized1, out) := onMessage ideName initialized msg in
      let '(initialized2, outs) := onMessages ideName initialized1 rest in
      (initialized2, out :: outs)
  end.

Section Raw.

(** [JSON.parse]; [None] when it throws. *)
Variable JSON_parse : jsstring -> option json.

(** [safeJsonParse(s)]: [null] for a text that does not parse. *)
Definition safeJsonParse (s : jsstring) : option json := JSON_parse s.

(** [onMessage(ws, raw)] on the text of [raw]. *)
Definition onMessage_raw (ideName : jsstring) (initialized : bool) (rawStr : jsstring)
    : bool * list frame :=
  onMessage ideName initialized (safeJsonParse rawStr).

End Raw.

End JsonRpc.

(** ** [ClaudeIdeBridge.ts]: the server *)
Module Bridge.
Import JsonRpc.

(** [readyState] of a socket. *)
Inductive readyState : Type := CONNECTING | OPEN | CLOSING | CLOSED.

#[global] Instance readyState_eq_dec : EqDecision readyState.
Proof. solve_decision. Defined.

(** A socket the server has been given: its state, and whether the
    ['message'] and ['close'] listeners of the bridge are on it. *)
Record socket : Type := {
  state : readyState;
  listening : bool;
}.

(** The state [startClaudeIdeBridge] closes over.  Sockets are numbered in
    the order of their ['connection'] events.  [initialized] is the variable
    of the one [jsonRpcHandler] the bridge creates. *)
Record bridge : Type := {
  ideName : jsstring;
  authToken : jsstring;
  initialized : bool;
  currentClient : option nat;
  sockets : list socket;
}.

(** What the bridge does to sockets. *)
Inductive call : Type :=
| Send (ws : nat) (f : frame)
| Close (ws : nat) (code : option Z).

(** What happens to the bridge: a ['connection'] event for a new socket,
    with the [x-claude-code-ide-authorization] header of its request; a
    ['message'] event on a socket, with the message as [safeJsonParse] reads
    it; a ['close'] event on a socket; a call of [sendNotification]. *)
Inductive event : Type :=
| Connection (token : option jsstring)
| Message (ws : nat) (msg : option json)
| Closed (ws : nat)
| SendNotification (method : jsstring) (params : json).

(** [startClaudeIdeBridge(options)], with the token [crypto.randomUUID()]
    gave. *)
Definition startClaudeIdeBridge (ideName authToken : jsstring) : bridge :=
  {| ideName := ideName; authToken := authToken; initialized := false;
     currentClient := None; sockets := [] |}.

Definition set_sockets (l : list socket) (b : bridge) : bridge :=
  {| ideName := ideName b; authToken := authToken b; initialized := initialized b;
     currentClient := currentClient b; sockets := l |}.

Definition set_currentClient (c : option nat) (b : bridge) : bridge :=
  {| ideName := ideName b; authToken := authToken b; initialized := initialized b;
     currentClient := c; sockets := sockets b |}.

Definition set_initialized (i : bool) (b : bridge) : bridge :=
  {| ideName := ideName b; authToken := authToken b; initialized := i;
     currentClient := currentClient b; sockets := sockets b |}.

(** The socket after a call of [close]: an open socket starts closing. *)
Definition closing (s : socket) : socket :=
  {| state := match state s with OPEN | CONNECTING => CLOSING | st => st end;
     listening := listening s |}.

(** [ws.close(code)] *)
Definition ws_close (ws : nat) (b : bridge) : bridge :=
  set_sockets (alter closing ws (sockets b)) b.

(** The socket with the listeners of the bridge on it. *)
Definition listen (s : socket) : socket :=
  {| state := state s; listening := true |}.

(** The socket once its ['close'] event is emitted. *)
Definition closed (s : socket) : socket :=
  {| state := CLOSED; listening := listening s |}.

(** The listener of ['connection']. *)
Definition onConnection (token : option jsstring) (b : bridge) : bridge * list call :=
  let ws := length (sockets b) in
  let b := set_sockets (sockets b ++ [{| state := OPEN; listening := false |}]) b in
  if bool_decide (token ≠ Some (authToken b)) then
    (ws_close ws b, [Close ws (Some 1008%Z)])
  else
    (* Only keep one client *)
    let '(b, calls) :=
      match currentClient b with
      | Some c => if bool_decide (c ≠ ws) then (ws_close c b, [Close c None]) else (b, [])
      | None => (b, [])
      end in
    let b := set_currentClient (Some ws) b in
    let b := set_sockets (alter listen ws (sockets b)) b in
    (b, calls).

(** A ['message'] event on [ws]: the listener, when there is one, runs the
    handler. *)
Definition onSocketMessage (ws : nat) (msg : option json) (b : bridge)
    : bridge * list call :=
  match sockets b !! ws with
  | Some s =>
      if listening s && bool_decide (state s ≠ CLOSED) then
        let '(i, frames) := onMessage (ideName b) (initialized b) msg in
        (set_initialized i b, map (Send ws) frames)
      else (b, [])
  | None => (b, [])
  end.

(** A ['close'] event on [ws]: the socket is closed, and the listener, when
    there is one, forgets it as the current client. *)
Definition onSocketClose (ws : nat) (b : bridge) : bridge * list call :=
  match sockets b !! ws with
  | Some s =>
      if bool_decide (state s ≠ CLOSED) then
        let b := set_sockets (alter closed ws (sockets b)) b in
        if listening s && bool_decide (currentClient b = Some ws)
        then (set_currentClient None b, [])
        else (b, [])
      else (b, [])
  | None => (b, [])
  end.

(** [sendNotification(method, params)] *)
Definition sendNotification (method : jsstring) (params : json) (b : bridge)
    : bridge * list call :=
  match currentClient b with
  | Some c =>
      match sockets b !! c with
      | Some s =>
          if bool_decide (state s = OPEN)
          then (b, [Send c (Notification method params)])
          else (b, [])
      | None => (b, [])
      end
  | None => (b, [])
  end.

(** The bridge handling one event: its state afterwards and the calls it
    makes. *)
Definition step (e : event) (b : bridge) : bridge * list call :=
  match e with
  | Connection token => onConnection token b
  | Message ws msg => onSocketMessage ws msg b
  | Closed ws => onSocketClose ws b
  | SendNotification method params => sendNotification method params b
  end.

(** A sequence of events: the bridge at the end and all the calls made. *)
Fixpoint run (es : list event) (b : bridge) : bridge * list call :=
  match es with
  | [] => (b, [])
  | e :: rest =>
      let '(b1, calls1) := step e b in
      let '(b2, calls2) := run rest b1 in
      (b2, calls1 ++ calls2)
  end.

End Bridge.

(** ** [ClaudeIdeBridge.ts]: the instance and the singleton *)
Module BridgeHost.
Import LockFile.

(** A property of an options object: left out, given as [undefined], or
    given a value. *)
Inductive field (A : Type) : Type :=
| Absent
| Undefined
| Given (a : A).
Arguments Absent {A}.
Arguments Undefined {A}.
Arguments Given {A} a.

(** The value a destructuring with a default binds. *)
Definition with_default {A} (d : A) (f : field A) : A :=
  match f with
  | Given a => a
  | Absent | Undefined => d
  end.

(** The property of [{ ...a, ...b }]. *)
Definition spread {A} (a b : field A) : field A :=
  match b with
  | Absent => a
  | Undefined | Given _ => b
  end.

(** [ClaudeIdeBridgeOptions] *)
Record ClaudeIdeBridgeOptions : Type := {
  opt_workspaceFolders : field (list jsstring);
  opt_ideName : field jsstring;
}.

(** [ClaudeIdeBridgeInstance], with the variables its methods close over:
    the current workspace folders, the name, and the state of the server. *)
Record ClaudeIdeBridgeInstance : Type := {
  port : nat;
  authToken : jsstring;
  lockPath : jsstring;
  currentWorkspaceFolders : list jsstring;
  ideName : jsstring;
  server : Bridge.bridge;
}.

(** The environment of a child process. *)
Abbreviation ProcessEnv := (gmap jsstring (option jsstring)).

(** [setEnvForChild(env)] *)
Definition setEnvForChild (this : ClaudeIdeBridgeInstance) (env : ProcessEnv)
    : ProcessEnv :=
  <[js "ENABLE_IDE_INTEGRATION" := Some (js "true")]>
    (<[js "CLAUDE_CODE_SSE_PORT" := Some (decimal (port this))]> env).

(** [sendSelectionChanged(params)] and [sendAtMentioned(params)]: the
    calls made on the sockets of the server. *)
Definition sendSelectionChanged (params : json) (this : ClaudeIdeBridgeInstance)
    : list Bridge.call :=
  (Bridge.sendNotification (js "selection_changed") params (server this)).2.

Definition sendAtMentioned (params : json) (this : ClaudeIdeBridgeInstance)
    : list Bridge.call :=
  (Bridge.sendNotification (js "at_mentioned") params (server this)).2.

(** The module: its singleton, its options and, with them, the file system
    the functions act on. *)
Record host : Type := {
  bridgeInstance : option ClaudeIdeBridgeInstance;
  bridgeOptions : ClaudeIdeBridgeOptions;
  files : filesystem;
}.

(** The module when it is loaded. *)
Definition loaded (fs : filesystem) : host :=
  {| bridgeInstance := None;
     bridgeOptions := {| opt_workspaceFolders := Absent;
                         opt_ideName := Given (js "EnsoAI") |};
     files := fs |}.

Section Host.

Variable path_join : list jsstring -> jsstring.
Variable JSON_stringify : json -> jsstring.
Variable proc : process.

(** [writeLockFile] with the file system it leaves behind when it throws:
    the directory it has made stays. *)
Definition writeLockFile_fs (port : nat) (authToken : jsstring)
    (workspaceFolders : list jsstring) (ideName : jsstring) (fs : filesystem)
    : filesystem * result jsstring :=
  let ideDir := getIdeDir path_join proc in
  match ensureDir ideDir fs with
  | Throw e => (fs, Throw e)
  | Ok fs1 =>
      let lockPath := path_join [ideDir; lock_name port] in
      let payload := lock_payload proc authToken workspaceFolders ideName in
      match writeFileSync lockPath (JSON_stringify (payload_object payload)) mode_600 fs1 with
      | Throw e => (fs1, Throw e)
      | Ok fs2 => (fs2, Ok lockPath)
      end
  end.

(** [startClaudeIdeBridge(options)]: [uuid] is what [crypto.randomUUID()]
    gives and [listen] the port the server is given, or the rejection of
    the promise.  The function gives the instance, or throws. *)
Definition startClaudeIdeBridge (options : ClaudeIdeBridgeOptions)
    (uuid : jsstring) (listen : result nat) (fs : filesystem)
    : filesystem * result ClaudeIdeBridgeInstance :=
  let initialFolders := with_default [] (opt_workspaceFolders options) in
  let ideName := with_default (js "EnsoAI") (opt_ideName options) in
  match listen with
  | Throw e => (fs, Throw e)
  | Ok port =>
      match writeLockFile_fs port uuid initialFolders ideName fs with
      | (fs, Throw e) => (fs, Throw e)
      | (fs, Ok lockPath) =>
          (fs, Ok {| port := port; authToken := uuid; lockPath := lockPath;
                     currentWorkspaceFolders := initialFolders; ideName := ideName;
                     server := Bridge.startClaudeIdeBridge ideName uuid |})
      end
  end.

(** [updateWorkspaceFolders(folders)]: the folders are changed, then the
    lock file is written again. *)
Definition updateWorkspaceFolders (folders : list jsstring)
    (this : ClaudeIdeBridgeInstance) (fs : filesystem)
    : ClaudeIdeBridgeInstance * filesystem * result unit :=
  let this := {| port := port this; authToken := authToken this;
                 lockPath := lockPath this; currentWorkspaceFolders := folders;
                 ideName := ideName this; server := server this |} in
  match writeLockFile_fs (port this) (authToken this) folders (ideName this) fs with
  | (fs, Throw e) => (this, fs, Throw e)
  | (fs, Ok _) => (this, fs, Ok tt)
  end.

(** [dispose()]: the lock file is deleted (the server is closed). *)
Definition dispose (this : ClaudeIdeBridgeInstance) (fs : filesystem) : filesystem :=
  deleteLockFile path_join proc (port this) fs.

(** The module with another singleton and file system. *)
Definition set_instance (i : option ClaudeIdeBridgeInstance) (fs : filesystem)
    (h : host) : host :=
  {| bridgeInstance := i; bridgeOptions := bridgeOptions h; files := fs |}.

(** [initClaudeIdeBridge(options)]; options left out are [None]. *)
Definition initClaudeIdeBridge (options : option ClaudeIdeBridgeOptions)
    (uuid : jsstring) (listen : result nat) (h : host)
    : host * result ClaudeIdeBridgeInstance :=
  match bridgeInstance h with
  | Some i => (h, Ok i)
  | None =>
      let options := default {| opt_workspaceFolders := Absent; opt_ideName := Absent |}
                             options in
      match startClaudeIdeBridge options uuid listen (files h) with
      | (fs, Ok i) => (set_instance (Some i) fs h, Ok i)
      | (fs, Throw e) => (set_instance None fs h, Throw e)
      end
  end.

(** [disposeClaudeIdeBridge()] *)
Definition disposeClaudeIdeBridge (h : host) : host :=
  match bridgeInstance h with
  | Some i => set_instance None (dispose i (files h)) h
  | None => h
  end.

(** [getClaudeIdeBridge()] *)
Definition getClaudeIdeBridge (h : host) : option ClaudeIdeBridgeInstance :=
  bridgeInstance h.

(** [updateClaudeWorkspaceFolders(folders)] *)
Definition updateClaudeWorkspaceFolders (folders : list jsstring) (h : host)
    : host * result unit :=
  match bridgeInstance h with
  | Some i =>
      let '(i, fs, r) := updateWorkspaceFolders folders i (files h) in
      (set_instance (Some i) fs h, r)
  | None => (h, Ok tt)
  end.

(** [setClaudeBridgeEnabled(enabled, workspaceFolders)]; folders left out
    are [None]. *)
Definition setClaudeBridgeEnabled (enabled : bool)
    (workspaceFolders : option (list jsstring))
    (uuid : jsstring) (listen : result nat) (h : host) : host * result bool :=
  if enabled then
    match bridgeInstance h with
    | None =>
        let options :=
          {| opt_workspaceFolders := Given (default [] workspaceFolders);
             opt_ideName := opt_ideName (bridgeOptions h) |} in
        match startClaudeIdeBridge options uuid listen (files h) with
        | (fs, Ok i) => (set_instance (Some i) fs h, Ok true)
        | (fs, Throw e) => (set_instance None fs h, Throw e)
        end
    | Some i =>
        match workspaceFolders with
        | Some folders =>
            (* Bridge already running, just update workspaceFolders *)
            let '(i, fs, r) := updateWorkspaceFolders folders i (files h) in
            (set_instance (Some i) fs h,
             match r with Ok _ => Ok true | Throw e => Throw e end)
        | None => (h, Ok true)
        end
    end
  else
    match bridgeInstance h with
    | Some i => (set_instance None (dispose i (files h)) h, Ok false)
    | None => (h, Ok false)
    end.

(** [getClaudeBridgeStatus()]: [enabled] and [port]. *)
Definition getClaudeBridgeStatus (h : host) : bool * option nat :=
  (bool_decide (bridgeInstance h ≠ None), port <$> bridgeInstance h).

(** [setBridgeOptions(options)] *)
Definition setBridgeOptions (options : ClaudeIdeBridgeOptions) (h : host) : host :=
  {| bridgeInstance := bridgeInstance h;
     bridgeOptions :=
       {| opt_workspaceFolders := spread (opt_workspaceFolders (bridgeOptions h))
                                         (opt_workspaceFolders options);
          opt_ideName := spread (opt_ideName (bridgeOptions h)) (opt_ideName options) |};
     files := files h |}.

End Host.

End BridgeHost.

(** * Vocabulary of the properties *)

(** ** Vocabulary for the line framer *)
Module FramerSpec.
Import StreamJsonParser.

(** [c] put in front of the first piece. *)
Definition cons_head (c : N) (ls : list jsstring) : list jsstring :=
  match ls with
  | l :: r => (c :: l) :: r
  | [] => [[c]]
  end.

(** What follows the last separator of [s]: the buffer [parse] keeps. *)
Definition last_piece (s : jsstring) : jsstring := default [] (last (split s)).

End FramerSpec.

(** ** Vocabulary for the classifiers *)
Module ClassifierSpec.
Import StreamJsonParser.

(** The record is of the stream kind and its nested event is a
    content-block delta: the test of [extractTextDelta]. *)
Definition is_content_block_delta (event : StreamEvent) : bool :=
  is_str (prop event "type") (js "stream_event")
  && is_str (opt_chain (prop event "event") (js "type")) (js "content_block_delta").

(** [event.event.delta?.text] *)
Definition delta_text (event : StreamEvent) : option json :=
  opt_chain (opt_chain (prop event "event") (js "delta")) (js "text").

(** A stream record whose nested event is a content-block delta with the
    given further properties. *)
Definition content_block_delta (delta : list (jsstring * json)) : StreamEvent :=
  [(js "type", JStr (js "stream_event"));
   (js "event", JObj ((js "type", JStr (js "content_block_delta")) :: delta))].

(** A delta record that carries no delta at all. *)
Definition delta_without_delta : StreamEvent := content_block_delta [].

(** A delta record whose text is the empty string. *)
Definition delta_with_empty_text : StreamEvent :=
  content_block_delta [(js "delta", JObj [(js "type", JStr (js "text_delta"));
                                          (js "text", JStr [])])].

(** The delta record of the specification, with the text ["ab"]. *)
Definition delta_ab : StreamEvent :=
  content_block_delta [(js "delta", JObj [(js "type", JStr (js "text_delta"));
                                          (js "text", JStr (js "ab"))])].

Definition text_block (s : string) : json :=
  JObj [(js "type", JStr (js "text")); (js "text", JStr (js s))].

(** A whole-message record and a result record that repeat the text. *)
Definition assistant_ab : StreamEvent :=
  [(js "type", JStr (js "assistant"));
   (js "message", JObj [(js "content", JArr [text_block "ab"])])].

Definition result_ab : StreamEvent :=
  [(js "type", JStr (js "result")); (js "result", JStr (js "ab"))].

(** The result record of the specification: a usage mapping with the one key
    [claude-x] and no [model]. *)
Definition result_claude_x : StreamEvent :=
  [(js "type", JStr (js "result"));
   (js "modelUsage", JObj [(js "claude-x", JObj [])])].

(** A result record with a [model] as well. *)
Definition result_with_model : StreamEvent :=
  [(js "type", JStr (js "result")); (js "model", JStr (js "claude-y"));
   (js "modelUsage", JObj [(js "claude-x", JObj [])])].

End ClassifierSpec.

(** ** Vocabulary for the review session *)
Module CodeReviewSpec.
Import StreamJsonParser CodeReview.

(** The id of a terminal and the path of a repository. *)
Definition pty : jsstring := js "pty-1".
Definition repo : jsstring := js "/repo".

(** The init record of the subprocess. *)
Definition init_event : StreamEvent :=
  [(js "type", JStr (js "system")); (js "subtype", JStr (js "init"))].

(** A review started from the first render, then the init record: the hook
    is streaming, and its exit listener is the one [startReview] registered
    while the status was [idle]. *)
Definition streaming_review : hook :=
  handleEvent init_event (startReview (Some repo) (Some pty) initial).

(** A review restarted while it was streaming, streaming again: its exit
    listener tests [streaming]. *)
Definition restarted_review : hook :=
  handleEvent init_event (startReview (Some repo) (Some pty) streaming_review).

(** The error record of the subprocess. *)
Definition error_event : StreamEvent :=
  [(js "type", JStr (js "system")); (js "subtype", JStr (js "error"))].

(** A review restarted after an error, and failed again: its exit listener
    tests [error]. *)
Definition failed_review : hook :=
  handleEvent error_event (startReview (Some repo) (Some pty)
    (handleEvent error_event streaming_review)).

End CodeReviewSpec.

(** ** Vocabulary for the lock file *)
Module LockFileSpec.
Import LockFile.

Section Files.

Variable path_join : list jsstring -> jsstring.
Variable proc : process.

(** The path of the lock file of a port. *)
Definition lockPath_of (port : nat) : jsstring :=
  path_join [getIdeDir path_join proc; lock_name port].

End Files.

(** A bridge on port 4242 of a Linux process, with one workspace folder. *)
Definition sample_process : process :=
  {| env_CLAUDE_CONFIG_DIR := None; homedir := js "/home/u"; pid := 977;
     platform := js "linux" |}.

(** The object its [writeLockFile] writes. *)
Definition sample_object : json :=
  JObj [(js "pid", JNum (number_of_Z 977));
        (js "workspaceFolders", JArr [JStr (js "/w")]);
        (js "ideName", JStr (js "EnsoAI"));
        (js "transport", JStr (js "ws"));
        (js "runningInWindows", JBool false);
        (js "authToken", JStr (js "t0k"))].

(** The JSON text of [sample_object]; [q] puts a string in quotes. *)
Definition q (s : string) : jsstring := [34%N] ++ js s ++ [34%N].

Definition sample_text : jsstring :=
  js "{" ++ q "pid" ++ js ":977," ++ q "workspaceFolders" ++ js ":[" ++ q "/w" ++ js "],"
  ++ q "ideName" ++ js ":" ++ q "EnsoAI" ++ js "," ++ q "transport" ++ js ":" ++ q "ws"
  ++ js "," ++ q "runningInWindows" ++ js ":false," ++ q "authToken" ++ js ":" ++ q "t0k"
  ++ js "}".

(** [path.join], [JSON.stringify] and [JSON.parse] where the sample needs
    them. *)
Definition sample_join (parts : list jsstring) : jsstring :=
  match parts with
  | [] => js "."
  | p :: ps => fold_left (fun acc x => acc ++ js "/" ++ x) ps p
  end.

Definition sample_stringify (v : json) : jsstring := sample_text.

Definition sample_parse (s : jsstring) : option json :=
  if bool_decide (s = sample_text) then Some sample_object else None.

(** The lock file of the sample and the file system once it is written. *)
Definition sample_lockPath : jsstring := js "/home/u/.claude/ide/4242.lock".

Definition sample_fs : filesystem :=
  <[sample_lockPath := File sample_text mode_600]>
    (<[js "/home/u/.claude/ide" := Dir mode_700]> ∅).

End LockFileSpec.

(** ** Vocabulary for the JSON-RPC handler *)
Module JsonRpcSpec.
Import JsonRpc.

(** The message is the notification [notifications/initialized]: a JSON-RPC
    2.0 object without [id] whose method is that name. *)
Definition is_initialized_notification (msg : option json) : bool :=
  match msg with
  | Some m =>
      truthy m && is_str (get_prop m (js "jsonrpc")) (js "2.0")
      && bool_decide (get_prop m (js "id") = None)
      && is_str (get_prop m (js "method")) (js "notifications/initialized")
  | None => false
  end.

(** The message is a JSON-RPC 2.0 request of the method, with the id. *)
Definition is_request (msg : option json) (method : string) (id : json) : Prop :=
  ∃ props, msg = Some (JObj props) ∧
    lookup_prop (js "jsonrpc") props = Some (JStr (js "2.0")) ∧
    lookup_prop (js "id") props = Some id ∧
    lookup_prop (js "method") props = Some (JStr (js method)).

(** A request and the notification, as [safeJsonParse] gives them. *)
Definition request (method : string) (id : json) : option json :=
  Some (JObj [(js "jsonrpc", JStr (js "2.0")); (js "id", id);
              (js "method", JStr (js method))]).

Definition initialized_notification : option json :=
  Some (JObj [(js "jsonrpc", JStr (js "2.0"));
              (js "method", JStr (js "notifications/initialized"))]).

Definition ping : option json := request "ping" (JStr (js "p")).

End JsonRpcSpec.

(** ** Vocabulary for the bridge server *)
Module BridgeSpec.
Import JsonRpc Bridge JsonRpcSpec.

(** The bridge after a sequence of events, and the calls made. *)
Definition after (es : list event) (b : bridge) : bridge := (run es b).1.
Definition calls (es : list event) (b : bridge) : list call := (run es b).2.

(** The ['message'] listener of the bridge is on the socket and the socket
    can still receive. *)
Definition receives (ws : nat) (b : bridge) : bool :=
  match sockets b !! ws with
  | Some s => listening s && bool_decide (state s ≠ CLOSED)
  | None => false
  end.

(** The current client is a socket the bridge has been given. *)
Definition client_known (b : bridge) : Prop :=
  ∀ c, currentClient b = Some c → c < length (sockets b).

(** The listeners of the bridge are not on socket [ws], and [ws] is not the
    current client. *)
Definition stranger (ws : nat) (b : bridge) : Prop :=
  (∃ s, sockets b !! ws = Some s ∧ listening s = false) ∧ currentClient b ≠ Some ws.

(** Socket [ws] is known and is not the current client. *)
Definition displaced (ws : nat) (b : bridge) : Prop :=
  ws < length (sockets b) ∧ currentClient b ≠ Some ws.

(** The current client, if any, is [ws]. *)
Definition sole_peer (ws : nat) (b : bridge) : Prop :=
  ws < length (sockets b) ∧ ∀ c, currentClient b = Some c → c = ws.

Definition is_notification (f : frame) : bool :=
  match f with Notification _ _ => true | _ => false end.

(** The calls that deliver a notification to socket [ws]. *)
Definition notified (ws : nat) (c : call) : bool :=
  match c with
  | Send w f => bool_decide (w = ws) && is_notification f
  | Close _ _ => false
  end.

(** The calls that send on socket [ws]. *)
Definition sends_to (ws : nat) (c : call) : bool :=
  match c with
  | Send w _ => bool_decide (w = ws)
  | Close _ _ => false
  end.

(** The event is a connection that presents the token. *)
Definition authorized (tok : jsstring) (e : event) : bool :=
  match e with
  | Connection token => bool_decide (token = Some tok)
  | _ => false
  end.

(** The token of a sample bridge. *)
Definition secret : jsstring := js "7e1f".

(** A first client connects and sends [notifications/initialized]; a second
    client connects and, having sent nothing else, asks for [tools/list]. *)
Definition second_client_session : list event :=
  [Connection (Some secret);
   Message 0 initialized_notification;
   Connection (Some secret);
   Message 1 (request "tools/list" (JStr (js "q1")))].

End BridgeSpec.

(** ** Vocabulary for the further properties of the line framer *)
Module FramerMoreSpec.
Import StreamJsonParser.

(** The number of line feeds of a string. *)
Definition line_feeds (s : jsstring) : nat :=
  length (List.filter (fun c => bool_decide (c = LF)) s).

(** The string has no ANSI introducer: neither 0x1b nor 0x9b. *)
Definition no_introducer (s : jsstring) : Prop :=
  (27%N ∉ s) ∧ (155%N ∉ s).

(** The coloured line of the specification: no JSON once cleaned. *)
Definition hello_line : jsstring :=
  [27%N] ++ js "[31mhello" ++ [27%N] ++ js "[0m".

(** A [JSON.parse] that knows the text of one empty object. *)
Definition parse_empty_object (s : jsstring) : option json :=
  if bool_decide (s = js "{}") then Some (JObj []) else None.

End FramerMoreSpec.

(** ** Vocabulary for the further properties of the classifiers *)
Module ClassifierMoreSpec.
Import StreamJsonParser.

(** How many of the four kinds a record is of. *)
Definition kinds (event : StreamEvent) : nat :=
  (if isInitEvent event then 1 else 0) + (if isErrorEvent event then 1 else 0)
  + (if isResultEvent event then 1 else 0) + (if isStreamEvent event then 1 else 0).

(** The result record of the specification, with its cost. *)
Definition result_with_cost (x : number) : StreamEvent :=
  [(js "type", JStr (js "result")); (js "total_cost_usd", JNum x)].

(** A stream record whose nested event ends the message. *)
Definition message_stop : StreamEvent :=
  [(js "type", JStr (js "stream_event"));
   (js "event", JObj [(js "type", JStr (js "message_stop"))])].

End ClassifierMoreSpec.

(** ** Vocabulary for the further properties of the review session *)
Module CodeReviewMoreSpec.
Import StreamJsonParser CodeReview.


(** The status an event leads to. *)
Definition next_status (event : StreamEvent) (s : ReviewStatus) : ReviewStatus :=
  if isInitEvent event then streaming
  else if isResultEvent event then complete
  else if isErrorEvent event then error
  else s.

(** A second terminal. *)
Definition pty2 : jsstring := js "pty-2".

End CodeReviewMoreSpec.

(** ** Vocabulary for the further properties of the lock file *)
Module LockFileMoreSpec.
Import LockFile.

(** What is at the path is a file, or is a directory. *)
Definition is_file (e : option entry) : Prop :=
  match e with Some (File _ _) => True | _ => False end.

Definition is_dir (e : option entry) : Prop :=
  match e with Some (Dir _) => True | _ => False end.

(** The mode of what is at the path. *)
Definition mode_of (e : option entry) : option N :=
  match e with
  | Some (File _ m) | Some (Dir m) => Some m
  | None => None
  end.



Section Files.

Variable path_join : list jsstring -> jsstring.
Variable JSON_stringify : json -> jsstring.
Variable proc : process.

(** The text [writeLockFile] writes. *)
Definition text_of (authToken : jsstring) (workspaceFolders : option (list jsstring))
    (ideName : option jsstring) : jsstring :=
  JSON_stringify (payload_object
    (lock_payload proc authToken (default [] workspaceFolders)
       (default (js "EnsoAI") ideName))).

End Files.

End LockFileMoreSpec.

(** ** Vocabulary for the further properties of the JSON-RPC handler *)
Module JsonRpcMoreSpec.
Import JsonRpc.

(** The message is an object with [jsonrpc: '2.0']: what [onMessage] goes on
    with. *)
Definition envelope (msg : option json) : option json :=
  match msg with
  | Some m =>
      if truthy m && is_str (get_prop m (js "jsonrpc")) (js "2.0") then Some m else None
  | None => None
  end.

(** The id of a request: the [id] of an envelope that has one. *)
Definition request_id (msg : option json) : option json :=
  match envelope msg with
  | Some m => get_prop m (js "id")
  | None => None
  end.

(** The [method] and the [params] of a message. *)
Definition method_of (msg : option json) : option json :=
  match msg with Some m => get_prop m (js "method") | None => None end.



(** The method is one of the names. *)
Definition method_among (names : list string) (msg : option json) : bool :=
  existsb (fun name => is_str (method_of msg) (js name)) names.


End JsonRpcMoreSpec.

(** ** Vocabulary for the further properties of the bridge server *)
Module BridgeMoreSpec.
Import JsonRpc Bridge BridgeSpec.

(** The bridge can be reached from its start. *)
Definition reachable (ideName tok : jsstring) (b : bridge) : Prop :=
  ∃ es, b = after es (startClaudeIdeBridge ideName tok).

(** A socket that the bridge listens to and that is open is the current
    client: there is at most one such socket. *)
Definition single_open_peer (b : bridge) : Prop :=
  ∀ w s, sockets b !! w = Some s → listening s = true → state s = OPEN →
         currentClient b = Some w.

(** The current client is a socket the bridge listens to. *)
Definition client_listens (b : bridge) : Prop :=
  ∀ c, currentClient b = Some c →
       ∃ s, sockets b !! c = Some s ∧ listening s = true.

(** The invariant of the server. *)
Definition server_invariant (b : bridge) : Prop :=
  client_known b ∧ single_open_peer b ∧ client_listens b.

(** A session of two clients, the second displacing the first. *)
Definition two_clients : list event :=
  [Connection (Some secret); Connection (Some secret)].

End BridgeMoreSpec.

(** ** Vocabulary for the properties of the instance and the singleton *)
Module BridgeHostSpec.
Import LockFile BridgeHost.

(** A call of one of the functions of the module. *)
Inductive operation : Type :=
| SetEnabled (enabled : bool) (workspaceFolders : option (list jsstring))
             (uuid : jsstring) (listen : result nat)
| Init (options : option ClaudeIdeBridgeOptions) (uuid : jsstring) (listen : result nat)
| DisposeBridge
| UpdateFolders (folders : list jsstring)
| SetOptions (options : ClaudeIdeBridgeOptions).

(** The function returned normally. *)
Definition returned {A} (r : result A) : bool :=
  match r with Ok _ => true | Throw _ => false end.

Section Host.

Variable path_join : list jsstring -> jsstring.
Variable JSON_stringify : json -> jsstring.
Variable proc : process.

(** The module after the call, and whether the call returned normally. *)
Definition perform (op : operation) (h : host) : host * bool :=
  match op with
  | SetEnabled enabled workspaceFolders uuid listen =>
      let '(h, r) := setClaudeBridgeEnabled path_join JSON_stringify proc
                       enabled workspaceFolders uuid listen h in
      (h, returned r)
  | Init options uuid listen =>
      let '(h, r) := initClaudeIdeBridge path_join JSON_stringify proc
                       options uuid listen h in
      (h, returned r)
  | DisposeBridge => (disposeClaudeIdeBridge path_join proc h, true)
  | UpdateFolders folders =>
      let '(h, r) := updateClaudeWorkspaceFolders path_join JSON_stringify proc folders h in
      (h, returned r)
  | SetOptions options => (setBridgeOptions options h, true)
  end.

(** The text of the discovery record of an instance. *)
Definition record_of (i : ClaudeIdeBridgeInstance) : jsstring :=
  JSON_stringify (payload_object
    (lock_payload proc (authToken i) (currentWorkspaceFolders i) (ideName i))).

(** The lock file of the running bridge, if there is one, is at the path of
    its port and holds its record: its token, its current folders, its
    name. *)
Definition published (h : host) : Prop :=
  match bridgeInstance h with
  | Some i =>
      lockPath i = path_join [getIdeDir path_join proc; lock_name (port i)] ∧
      ∃ mode, files h !! lockPath i = Some (File (record_of i) mode)
  | None => True
  end.

(** A sequence of calls: the module at the end, and whether all the calls
    returned normally. *)
Fixpoint perform_all (ops : list operation) (h : host) : host * bool :=
  match ops with
  | [] => (h, true)
  | op :: rest =>
      let '(h1, ok1) := perform op h in
      let '(h2, ok2) := perform_all rest h1 in
      (h2, ok1 && ok2)
  end.

End Host.

(** A session of the host: the bridge is enabled, its folders are changed
    twice, once through each function, and its options are set. *)
Definition sample_session : list operation :=
  [SetEnabled true None (js "t0k") (Ok 4242);
   UpdateFolders [js "/a"];
   SetOptions {| opt_workspaceFolders := Absent; opt_ideName := Given (js "Other") |};
   SetEnabled true (Some [js "/w"]) (js "other") (Ok 1)].

(** The host of the sample once its bridge is enabled. *)
Definition enabled_host : host :=
  (setClaudeBridgeEnabled LockFileSpec.sample_join LockFileSpec.sample_stringify
     LockFileSpec.sample_process true (Some [js "/w"]) (js "t0k") (Ok 4242)
     (loaded ∅)).1.

(** A sample environment, with a stale port. *)
Definition sample_env : ProcessEnv :=
  <[js "CLAUDE_CODE_SSE_PORT" := Some (js "1")]> (<[js "HOME" := Some (js "/home/u")]> ∅).

(** The digits of a decimal numeral read back, as [parseInt] reads them. *)
Definition read_decimal (s : jsstring) : option nat :=
  match NilEmpty.uint_of_string (string_of_list_ascii (map ascii_of_N s)) with
  | Some d => Some (Nat.of_uint d)
  | None => None
  end.

End BridgeHostSpec.

(** * Properties *)

(** ** Properties of the line framer *)
Module FramerProofs.
Import StreamJsonParser FramerSpec.

Lemma split_nonempty s : split s ≠ [].
Proof.
  destruct s as [|c [|c' t]]; simpl; try done.
  - case_bool_decide; done.
  - case_bool_decide; [done|].
    destruct (bool_decide (c = CR) && bool_decide (c' = LF)); [done|].
    destruct (if bool_decide (c' = LF) then _ else _); done.
Qed.

Lemma split_LF t : split (LF :: t) = [] :: split t.
Proof. reflexivity. Qed.

Lemma split_CRLF t : split (CR :: LF :: t) = [] :: split t.
Proof. reflexivity. Qed.

(** A code unit that starts no separator stays in front of the first piece. *)
Lemma split_cons_other c t :
  c ≠ LF → ¬ (c = CR ∧ head t = Some LF) →
  split (c :: t) = cons_head c (split t).
Proof.
  intros Hc Hcr. destruct t as [|c' t']; simpl.
  - rewrite bool_decide_eq_false_2 by done. done.
  - rewrite (bool_decide_eq_false_2 (c = LF)) by done.
    destruct (decide (c = CR)) as [->|Hne].
    + rewrite (bool_decide_eq_true_2 (CR = CR)) by done.
      rewrite (bool_decide_eq_false_2 (c' = LF)); [done|].
      intros ->. apply Hcr. done.
    + rewrite (bool_decide_eq_false_2 (c = CR)) by done. simpl.
      destruct (if bool_decide (c' = LF) then _ else _) eqn:E; [|done].
      exfalso. apply (split_nonempty (c' :: t')). exact E.
Qed.

(** The three ways a non-empty string can start. *)
Lemma split_cases c t :
  (c = LF) ∨ (c = CR ∧ ∃ t', t = LF :: t') ∨
  (c ≠ LF ∧ ¬ (c = CR ∧ head t = Some LF)).
Proof.
  destruct (decide (c = LF)) as [|Hc]; [by left|right].
  destruct (decide (c = CR)) as [->|Hne].
  - destruct t as [|c' t']; [right; split; [done|]; intros [_ ?]; done|].
    destruct (decide (c' = LF)) as [->|Hne']; [left; eauto|].
    right. split; [done|]. intros [_ [=]]. done.
  - right. split; [done|]. intros [? _]. done.
Qed.

(** A string without separator is its own single piece. *)
Lemma split_single t l : split t = [l] → l = t.
Proof.
  revert l. induction t as [|c t IH]; intros l.
  - by intros [= <-].
  - destruct (split_cases c t) as [->|[[-> [t' ->]]|[Hc Hcr]]].
    + rewrite split_LF. intros [= _ E]. by apply split_nonempty in E.
    + rewrite split_CRLF. intros [= _ E]. by apply split_nonempty in E.
    + rewrite (split_cons_other c t Hc Hcr).
      pose proof (split_nonempty t) as Hne.
      destruct (split t) as [|l' [|l'' r]] eqn:E; simpl; try done.
      intros [= <-]. f_equal. by apply IH.
Qed.

(** Splitting a concatenation: the complete lines of the first part, then the
    split of its unfinished last piece followed by the second part. *)
Lemma split_app a b :
  split (a ++ b) = removelast (split a) ++ split (last_piece a ++ b).
Proof.
  unfold last_piece.
  remember (length a) as n eqn:Hn. revert a Hn.
  induction n as [n IH] using lt_wf_ind. intros a Hn.
  destruct a as [|c t]; [done|].
  destruct t as [|c' t'].
  { destruct (split_cases c []) as [->|[[-> [t' ?]]|[Hc Hcr]]]; [done|done|].
    by rewrite (split_cons_other c [] Hc Hcr). }
  set (t := c' :: t') in *.
  assert (Ht : split (t ++ b) =
                 removelast (split t) ++ split (default [] (last (split t)) ++ b)).
  { apply (IH (length t)); [subst n; simpl; lia | done]. }
  assert (Hhd : head (t ++ b) = head t) by done.
  clearbody t.
  destruct (split_cases c t) as [->|[[-> [t'' Et]]|[Hc Hcr]]].
  - change ((LF :: t) ++ b) with (LF :: (t ++ b)). rewrite !split_LF, Ht.
    pose proof (split_nonempty t) as Hne.
    destruct (split t) as [|l [|l' r]]; done.
  - rewrite Et. change ((CR :: LF :: t'') ++ b) with (CR :: LF :: (t'' ++ b)).
    rewrite !split_CRLF.
    pose proof (split_nonempty t'') as Hne.
    rewrite (IH (length t'')) with (a := t'')
      by (subst n; rewrite ?Et; simpl; first [lia | done]).
    destruct (split t'') as [|l [|l' r]]; done.
  - change ((c :: t) ++ b) with (c :: (t ++ b)).
    rewrite (split_cons_other c t Hc Hcr).
    rewrite (split_cons_other c (t ++ b) Hc) by (rewrite Hhd; exact Hcr).
    rewrite Ht.
    pose proof (split_nonempty t) as Hne.
    destruct (split t) as [|l [|l' r]] eqn:E; [done| |].
    + apply split_single in E. subst l. cbn -[split].
      rewrite (split_cons_other c (t ++ b) Hc) by (rewrite Hhd; exact Hcr). done.
    + simpl. done.
Qed.

Lemma last_piece_app a b : last_piece (a ++ b) = last_piece (last_piece a ++ b).
Proof.
  unfold last_piece at 1. rewrite split_app, last_app.
  pose proof (split_nonempty (last_piece a ++ b)) as Hne.
  unfold last_piece at 2.
  destruct (last (split (last_piece a ++ b))) eqn:E; [done|].
  apply last_None in E. done.
Qed.

(** The line of the specification: coloured text, no JSON. *)
Example remove_all_ansi_hello :
  trim (Regex.remove_all ansiRegex ([27%N] ++ js "[31mhello" ++ [27%N] ++ js "[0m"))
  = js "hello".
Proof. vm_compute. reflexivity. Qed.

(** A carriage return at the end of a chunk is kept in the buffer, and is
    part of the separator once the line feed comes. *)
Example split_between_CR_and_LF :
  split (js "{}" ++ [CR]) = [js "{}" ++ [CR]] ∧
  split ((js "{}" ++ [CR]) ++ [LF] ++ js "x") = [js "{}"; js "x"].
Proof. split; vm_compute; reflexivity. Qed.

Section Chunks.

Variable JSON_parse : jsstring -> option json.

Lemma parse_unfold this chunk :
  parse JSON_parse this chunk =
  ({| buffer := last_piece (buffer this ++ chunk) |},
   concat (map (parse_line JSON_parse) (removelast (split (buffer this ++ chunk))))).
Proof. reflexivity. Qed.

(** Two calls in a row do what one call on the concatenation does. *)
Lemma parse_app this c1 c2 :
  parse_all JSON_parse this [c1; c2] = parse JSON_parse this (c1 ++ c2).
Proof.
  cbn [parse_all]. rewrite !parse_unfold. cbn [buffer].
  rewrite app_nil_r, (assoc_L (++) (buffer this) c1 c2).
  rewrite (last_piece_app (buffer this ++ c1) c2).
  rewrite (split_app (buffer this ++ c1) c2).
  pose proof (split_nonempty (last_piece (buffer this ++ c1) ++ c2)) as Hne.
  rewrite removelast_app by done. by rewrite map_app, concat_app.
Qed.

(** Any number of calls in a row do what one call on the concatenation of
    the chunks does. *)
Lemma parse_all_concat this chunk chunks :
  parse_all JSON_parse this (chunk :: chunks)
  = parse JSON_parse this (concat (chunk :: chunks)).
Proof.
  revert this chunk. induction chunks as [|c2 rest IH]; intros this chunk.
  - cbn [parse_all concat]. rewrite app_nil_r.
    destruct (parse JSON_parse this chunk) as [t1 e1]. by rewrite app_nil_r.
  - change (concat (chunk :: c2 :: rest)) with (chunk ++ concat (c2 :: rest)).
    rewrite <- parse_app. cbn [parse_all] in *.
    destruct (parse JSON_parse this chunk) as [t1 e1].
    specialize (IH t1 c2). cbn [parse_all] in IH. rewrite IH.
    destruct (parse JSON_parse t1 (concat (c2 :: rest))) as [t2 e2].
    by rewrite app_nil_r.
Qed.

(** C1. However the input [s] is cut in two, at any offset [i], feeding the
    two chunks one after the other to [parse] returns the same events, in the
    same order, as feeding [s] in one call, and leaves the same buffer.  This
    holds from any parser state, in particular from a new parser. *)
Theorem parse_chunk_boundary_invariant (this : t) (s : jsstring) (i : nat) :
  parse_all JSON_parse this [take i s; drop i s] = parse JSON_parse this s.
Proof. rewrite parse_app. by rewrite take_drop. Qed.

End Chunks.

End FramerProofs.

(** ** Properties of the classifiers *)
Module ClassifierProofs.
Import StreamJsonParser ClassifierSpec.

Lemma is_str_true v lit : is_str v lit = true ↔ v = Some (JStr lit).
Proof.
  unfold is_str. destruct v as [[]|]; try (split; [done|by intros [=]]).
  rewrite bool_decide_eq_true. split; [by intros ->|by intros [= ->]].
Qed.

Lemma or_null_not_null a : or_null a ≠ JNull ↔ truthy_opt a = true.
Proof.
  destruct a as [v|]; simpl; [|done].
  destruct (truthy v) eqn:E; [|done]. split; [done|]. intros _ ->. done.
Qed.

Lemma or_null_truthy v : truthy v = true → or_null (Some v) = v.
Proof. simpl. by intros ->. Qed.

Lemma extractTextDelta_other_type (event : StreamEvent) (kind : jsstring) :
  kind ≠ js "stream_event" →
  prop event "type" = Some (JStr kind) → extractTextDelta event = JNull.
Proof.
  intros Hk Ht. unfold extractTextDelta. rewrite Ht. simpl.
  by rewrite bool_decide_eq_false_2.
Qed.

(** [extractTextDelta] gives something exactly when the record is a
    content-block delta of the stream kind and its delta has a truthy text. *)
Lemma extractTextDelta_not_null (event : StreamEvent) :
  extractTextDelta event ≠ JNull ↔
  is_content_block_delta event = true ∧ truthy_opt (delta_text event) = true.
Proof.
  unfold extractTextDelta, is_content_block_delta, delta_text.
  destruct (_ && _); [|split; [done|by intros [? _]]].
  rewrite or_null_not_null. split; [done|by intros [_ ?]].
Qed.

(** C7, as the claim has it: every content-block delta of the stream kind
    would give a text.  The record with no delta is one, and gives nothing. *)
Lemma extractTextDelta_exactly_counterexample :
  is_content_block_delta delta_without_delta = true ∧
  extractTextDelta delta_without_delta = JNull ∧
  ¬ (∀ event : StreamEvent,
       extractTextDelta event ≠ JNull ↔ is_content_block_delta event = true).
Proof.
  split; [reflexivity|]. split; [reflexivity|].
  intros H. apply (proj2 (H delta_without_delta)); reflexivity.
Qed.

(** C7, amended.  [extractTextDelta] gives a text only for a record of the
    stream kind whose nested event is a content-block delta, and for such a
    record exactly when the text of its delta is truthy; what it gives is then
    that text.  A record whose type is [assistant] or [result] gives
    nothing, whatever it contains. *)
Theorem extractTextDelta_only_deltas (event : StreamEvent) :
  (extractTextDelta event ≠ JNull ↔
   is_content_block_delta event = true ∧ truthy_opt (delta_text event) = true) ∧
  (∀ v, is_content_block_delta event = true → delta_text event = Some v →
        truthy v = true → extractTextDelta event = v) ∧
  (prop event "type" = Some (JStr (js "assistant")) → extractTextDelta event = JNull) ∧
  (prop event "type" = Some (JStr (js "result")) → extractTextDelta event = JNull).
Proof.
  split; [apply extractTextDelta_not_null|]. split; [|split].
  - intros v Hd Ht Hv. unfold extractTextDelta.
    unfold is_content_block_delta in Hd. rewrite Hd.
    unfold delta_text in Ht. rewrite Ht. by apply or_null_truthy.
  - by apply extractTextDelta_other_type.
  - by apply extractTextDelta_other_type.
Qed.

(** The theorem on the records of the specification: the delta ["ab"], and
    a whole message and a result that repeat it. *)
Lemma extractTextDelta_only_deltas_witness :
  extractTextDelta delta_ab = JStr (js "ab") ∧
  extractTextDelta assistant_ab = JNull ∧
  extractTextDelta result_ab = JNull.
Proof.
  split; [|split].
  - apply (proj1 (proj2 (extractTextDelta_only_deltas delta_ab))
             (JStr (js "ab"))); reflexivity.
  - apply (proj1 (proj2 (proj2 (extractTextDelta_only_deltas assistant_ab)))).
    reflexivity.
  - apply (proj2 (proj2 (proj2 (extractTextDelta_only_deltas result_ab)))).
    reflexivity.
Defined.

(** C10. A content-block delta of the stream kind whose delta text is the
    empty string gives [null], which is also what such a record gives when it
    has no delta at all. *)
Theorem extractTextDelta_empty_text (event bare : StreamEvent) :
  is_content_block_delta event = true →
  delta_text event = Some (JStr []) →
  is_content_block_delta bare = true →
  opt_chain (prop bare "event") (js "delta") = None →
  extractTextDelta event = JNull ∧ extractTextDelta event = extractTextDelta bare.
Proof.
  unfold is_content_block_delta, delta_text, extractTextDelta.
  intros -> -> -> ->. done.
Qed.

Lemma extractTextDelta_empty_text_witness :
  extractTextDelta delta_with_empty_text = JNull ∧
  extractTextDelta delta_with_empty_text = extractTextDelta delta_without_delta.
Proof.
  apply (extractTextDelta_empty_text delta_with_empty_text delta_without_delta);
    reflexivity.
Defined.

(** C8. On a result record [extractModel] gives the [model] field when it
    is a string; when it is not, and [modelUsage] is a non-empty mapping, the
    first key of the mapping; so [claude-x] on the record of the
    specification.  On a record that is not a result it gives [null]. *)
Theorem extractModel_spec (event : StreamEvent) :
  (isResultEvent event = true →
   ∀ m, prop event "model" = Some (JStr m) → extractModel event = JStr m) ∧
  (isResultEvent event = true →
   typeof_string (prop event "model") = false →
   ∀ k v rest, prop event "modelUsage" = Some (JObj ((k, v) :: rest)) →
     extractModel event = JStr k ∧ head (Object_keys (JObj ((k, v) :: rest))) = Some k) ∧
  extractModel result_claude_x = JStr (js "claude-x") ∧
  (isResultEvent event = false → extractModel event = JNull).
Proof.
  unfold isResultEvent, extractModel. split; [|split; [|split]].
  - intros -> m ->. done.
  - intros -> -> k v rest ->. done.
  - reflexivity.
  - intros ->. done.
Qed.

Lemma extractModel_spec_witness :
  extractModel result_with_model = JStr (js "claude-y") ∧
  extractModel result_claude_x = JStr (js "claude-x") ∧
  extractModel delta_ab = JNull.
Proof.
  split; [|split].
  - apply (proj1 (extractModel_spec result_with_model)); reflexivity.
  - apply (proj1 (proj2 (extractModel_spec result_claude_x)) eq_refl eq_refl
             (js "claude-x") (JObj []) []). reflexivity.
  - apply (proj2 (proj2 (proj2 (extractModel_spec delta_ab)))). reflexivity.
Defined.

End ClassifierProofs.

(** ** Properties of the review session *)
Module CodeReviewProofs.
Import StreamJsonParser CodeReview CodeReviewSpec.

Lemma streaming_review_status :
  status streaming_review = streaming ∧
  onExitListener streaming_review = Some (pty, idle).
Proof. split; reflexivity. Qed.

(** The status is not touched by the last step of [onExit]. *)
Lemma status_setPtyId p h : status (setPtyId p h) = status h.
Proof. reflexivity. Qed.

(** C3, as the claim has it: an exit with code 0 would leave the status as
    it is.  A review that is streaming when its subprocess exits with code 0
    becomes [complete]. *)
Lemma onExit_code_0_counterexample :
  status streaming_review = streaming ∧
  status (onExit pty 0 streaming_review) = complete.
Proof. split; reflexivity. Qed.

(** C3, amended.  When the subprocess of the review exits and the status the
    exit listener tests is the status of the hook: with code 0 the status
    becomes [complete] unless it is [error]; and a status that is [error]
    stays [error], whatever the code. *)
Theorem onExit_status (h : hook) (id : jsstring) (exitCode : Z) :
  onExitListener h = Some (id, status h) →
  (exitCode = 0%Z → status h ≠ error → status (onExit id exitCode h) = complete) ∧
  (status h = error → status (onExit id exitCode h) = status h).
Proof.
  intros Hl. unfold onExit. rewrite Hl.
  rewrite (bool_decide_eq_false_2 (id ≠ id)) by (intros ?; done).
  rewrite status_setPtyId. split.
  - intros -> Hs. rewrite (bool_decide_eq_false_2 (0%Z ≠ 0%Z)) by (intros ?; done).
    simpl. by rewrite bool_decide_eq_true_2.
  - intros Hs. rewrite Hs.
    rewrite (bool_decide_eq_true_2 (error ≠ complete)) by done.
    rewrite (bool_decide_eq_false_2 (error ≠ error)) by (intros ?; done).
    rewrite andb_true_r. case_bool_decide; [reflexivity|]. simpl. exact Hs.
Qed.

Lemma onExit_status_witness :
  status (onExit pty 0 restarted_review) = complete ∧
  status (onExit pty 1 failed_review) = status failed_review.
Proof.
  split.
  - apply (proj1 (onExit_status restarted_review pty 0 eq_refl)); [reflexivity|].
    vm_compute. discriminate.
  - apply (proj2 (onExit_status failed_review pty 1 eq_refl)). reflexivity.
Defined.

End CodeReviewProofs.

(** ** Properties of the lock file *)
Module LockFileProofs.
Import LockFile LockFileSpec.

Section Files.

Variable path_join : list jsstring -> jsstring.
Variable JSON_stringify : json -> jsstring.
Variable JSON_parse : jsstring -> option json.
Variable proc : process.

Lemma writeLockFile_inv (port : nat) (authToken : jsstring)
    (workspaceFolders : option (list jsstring)) (ideName : option jsstring)
    (fs fs1 : filesystem) (lockPath : jsstring) :
  writeLockFile path_join JSON_stringify proc port authToken workspaceFolders ideName fs
    = Ok (fs1, lockPath) →
  lockPath = lockPath_of path_join proc port ∧
  ∃ mode, fs1 !! lockPath =
    Some (File (JSON_stringify (payload_object
            (lock_payload proc authToken (default [] workspaceFolders)
               (default (js "EnsoAI") ideName)))) mode).
Proof.
  unfold lockPath_of, writeLockFile, ensureDir, mkdirSync, writeFileSync.
  set (dir := getIdeDir path_join proc). set (p := path_join [dir; lock_name port]).
  destruct (fs !! dir) as [[]|]; simpl; try done.
  - destruct (fs !! p) as [[]|]; simpl; try done.
    + intros [= <- <-]. split; [done|]. eexists. apply lookup_insert_eq.
    + intros [= <- <-]. split; [done|]. eexists. apply lookup_insert_eq.
  - destruct (<[dir:=Dir mode_700]> fs !! p) as [[]|]; simpl; try done.
    + intros [= <- <-]. split; [done|]. eexists. apply lookup_insert_eq.
    + intros [= <- <-]. split; [done|]. eexists. apply lookup_insert_eq.
Qed.

(** Once the lock file is a file, [deleteLockFile] removes it. *)
Lemma deleteLockFile_file (port : nat) (fs : filesystem) content mode :
  fs !! lockPath_of path_join proc port = Some (File content mode) →
  deleteLockFile path_join proc port fs = delete (lockPath_of path_join proc port) fs.
Proof.
  unfold lockPath_of. intros H. unfold deleteLockFile, existsSync, unlinkSync.
  rewrite H. rewrite bool_decide_eq_true_2 by eauto. done.
Qed.

(** With no lock file, [deleteLockFile] leaves the file system as it is. *)
Lemma deleteLockFile_absent (port : nat) (fs : filesystem) :
  fs !! lockPath_of path_join proc port = None →
  deleteLockFile path_join proc port fs = fs.
Proof.
  unfold lockPath_of. intros H. unfold deleteLockFile, existsSync.
  rewrite H. rewrite bool_decide_eq_false_2; [done|]. by intros [? ?].
Qed.

(** C9. After [writeLockFile] has written the lock file, reading it back
    gives an object with exactly the six properties [pid],
    [workspaceFolders], [ideName], [transport], [runningInWindows] and
    [authToken], with the values written ([JSON.parse] undoing
    [JSON.stringify] on this object).  After [deleteLockFile] the file does
    not exist, and a second [deleteLockFile] changes nothing: it throws
    nothing, being a total function of the file system. *)
Theorem lock_file_round_trip (port : nat) (authToken : jsstring)
    (workspaceFolders : list jsstring) (ideName : jsstring)
    (fs fs1 : filesystem) (lockPath : jsstring) :
  let written :=
    JObj [(js "pid", JNum (number_of_Z (pid proc)));
          (js "workspaceFolders", JArr (map JStr workspaceFolders));
          (js "ideName", JStr ideName);
          (js "transport", JStr (js "ws"));
          (js "runningInWindows", JBool (bool_decide (platform proc = js "win32")));
          (js "authToken", JStr authToken)] in
  writeLockFile path_join JSON_stringify proc port authToken
    (Some workspaceFolders) (Some ideName) fs = Ok (fs1, lockPath) →
  JSON_parse (JSON_stringify written) = Some written →
  read_back JSON_parse lockPath fs1 = Ok written ∧
  existsSync lockPath (deleteLockFile path_join proc port fs1) = false ∧
  deleteLockFile path_join proc port (deleteLockFile path_join proc port fs1)
    = deleteLockFile path_join proc port fs1.
Proof.
  intros written Hw Hcodec.
  apply writeLockFile_inv in Hw as [-> [mode Hfile]]. simpl in Hfile.
  change (payload_object _) with written in Hfile.
  rewrite (deleteLockFile_file _ _ _ _ Hfile).
  split; [|split].
  - unfold read_back, readFileSync. rewrite Hfile. simpl. by rewrite Hcodec.
  - unfold existsSync. rewrite lookup_delete_eq.
    apply bool_decide_eq_false_2. by intros [? ?].
  - apply deleteLockFile_absent. apply lookup_delete_eq.
Qed.

End Files.

Lemma lock_file_round_trip_witness :
  read_back sample_parse sample_lockPath sample_fs = Ok sample_object ∧
  existsSync sample_lockPath (deleteLockFile sample_join sample_process 4242 sample_fs)
    = false ∧
  deleteLockFile sample_join sample_process 4242
    (deleteLockFile sample_join sample_process 4242 sample_fs)
    = deleteLockFile sample_join sample_process 4242 sample_fs.
Proof.
  apply (lock_file_round_trip sample_join sample_stringify sample_parse sample_process
           4242 (js "t0k") [js "/w"] (js "EnsoAI") ∅ sample_fs sample_lockPath).
  - vm_compute. reflexivity.
  - vm_compute. reflexivity.
Defined.

End LockFileProofs.

(** ** Properties of the JSON-RPC handler *)
Module JsonRpcProofs.
Import JsonRpc JsonRpcSpec.

Lemma request_is_request method id : is_request (request method id) method id.
Proof. eexists. split; [reflexivity|]. split; [|split]; reflexivity. Qed.

(** The flag is set by the notification and by nothing else, and is never
    cleared. *)
Lemma onMessage_initialized ideName i msg :
  (onMessage ideName i msg).1 = i || is_initialized_notification msg.
Proof.
  unfold onMessage, is_initialized_notification.
  destruct msg as [m|]; [|by rewrite orb_false_r].
  destruct (truthy m); simpl; [|by rewrite orb_false_r].
  destruct (is_str (get_prop m (js "jsonrpc")) (js "2.0")); simpl;
    [|by rewrite orb_false_r].
  destruct (get_prop m (js "id")) as [id|]; simpl.
  - rewrite orb_false_r. repeat case_match; done.
  - destruct (is_str _ _); simpl; [by rewrite orb_true_r|by rewrite orb_false_r].
Qed.

Lemma onMessages_initialized ideName i msgs :
  (onMessages ideName i msgs).1 = i || existsb is_initialized_notification msgs.
Proof.
  revert i. induction msgs as [|msg rest IH]; intros i; simpl.
  - by rewrite orb_false_r.
  - pose proof (onMessage_initialized ideName i msg) as H.
    destruct (onMessage ideName i msg) as [i1 out]. simpl in H. subst i1.
    specialize (IH (i || is_initialized_notification msg)).
    destruct (onMessages ideName _ rest) as [i2 outs]. simpl in *.
    by rewrite IH, orb_assoc.
Qed.

(** What [tools/list] is answered, by the flag. *)
Lemma onMessage_tools_list ideName i msg id :
  is_request msg "tools/list" id →
  (onMessage ideName i msg).2 =
    if i then [Result id (JObj [(js "tools", JArr [])])]
    else [Error id (-32002) (Lit "Server not initialized")].
Proof.
  intros (props & -> & Hv & Hid & Hm). unfold onMessage, get_prop.
  rewrite Hv, Hid, Hm. destruct i; reflexivity.
Qed.

(** C4. A handler that has not yet been sent [notifications/initialized]
    answers a [tools/list] request with the error -32002; once it has been
    sent it, whatever came before and after, it answers with the list of
    tools, which is empty. *)
Theorem tools_list_after_initialized (ideName : jsstring)
    (before after : list (option json)) (notification req : option json) (id : json) :
  Forall (fun msg => is_initialized_notification msg = false) before →
  is_initialized_notification notification = true →
  is_request req "tools/list" id →
  (onMessage ideName (onMessages ideName false before).1 req).2
    = [Error id (-32002) (Lit "Server not initialized")] ∧
  (onMessage ideName (onMessages ideName false (before ++ notification :: after)).1 req).2
    = [Result id (JObj [(js "tools", JArr [])])] ∧
  McpTools.MCP_TOOLS = [].
Proof.
  intros Hb Hn Hr. rewrite !(onMessage_tools_list _ _ _ _ Hr).
  rewrite !onMessages_initialized. simpl.
  rewrite existsb_app. simpl. rewrite Hn, orb_true_r.
  replace (existsb is_initialized_notification before) with false; [done|].
  symmetry. apply not_true_is_false. intros He.
  apply existsb_exists in He as (m & Hin & Hm).
  rewrite Forall_forall in Hb. apply list_elem_of_In in Hin.
  specialize (Hb m Hin). congruence.
Qed.

Lemma tools_list_after_initialized_witness :
  (onMessage (js "EnsoAI")
     (onMessages (js "EnsoAI") false [ping; None]).1
     (request "tools/list" (JNum (number_of_Z 1)))).2
    = [Error (JNum (number_of_Z 1)) (-32002) (Lit "Server not initialized")] ∧
  (onMessage (js "EnsoAI")
     (onMessages (js "EnsoAI") false ([ping; None] ++ initialized_notification :: [ping])).1
     (request "tools/list" (JNum (number_of_Z 1)))).2
    = [Result (JNum (number_of_Z 1)) (JObj [(js "tools", JArr [])])] ∧
  McpTools.MCP_TOOLS = [].
Proof.
  apply (tools_list_after_initialized (js "EnsoAI") [ping; None] [ping]
           initialized_notification _ _).
  - repeat constructor.
  - reflexivity.
  - apply request_is_request.
Defined.

End JsonRpcProofs.

(** ** Properties of the bridge server *)
Module BridgeProofs.
Import JsonRpc Bridge JsonRpcSpec JsonRpcProofs BridgeSpec.

Lemma run_app es1 es2 b :
  run (es1 ++ es2) b =
  ((run es2 (run es1 b).1).1, (run es1 b).2 ++ (run es2 (run es1 b).1).2).
Proof.
  revert b. induction es1 as [|e es1 IH]; intros b; simpl.
  - by destruct (run es2 b).
  - destruct (step e b) as [b1 c1]. rewrite IH.
    destruct (run es1 b1) as [b2 c2]. simpl.
    destruct (run es2 b2) as [b3 c3]. simpl. by rewrite app_assoc.
Qed.

Lemma lookup_alter_listening (f : socket → socket) (l : list socket) (i w : nat) :
  (∀ s, listening (f s) = listening s) →
  listening <$> alter f i l !! w = listening <$> l !! w.
Proof.
  intros Hf. destruct (decide (i = w)) as [->|Hne].
  - rewrite list_lookup_alter_eq. destruct (l !! w); simpl; [|done]. by rewrite Hf.
  - by rewrite list_lookup_alter_ne.
Qed.

(** *** What one event changes *)

(** No socket is forgotten, and a ['connection'] event brings one more. *)
Lemma step_length e b :
  length (sockets (step e b).1) =
  match e with Connection _ => S (length (sockets b)) | _ => length (sockets b) end.
Proof.
  destruct e as [token|ws msg|ws|m p]; simpl.
  - unfold onConnection. simpl. case_bool_decide; simpl.
    + rewrite length_alter, length_app. simpl. lia.
    + destruct (currentClient b) as [c|]; simpl.
      * case_bool_decide; simpl; rewrite !length_alter, length_app; simpl; lia.
      * rewrite length_alter, length_app. simpl. lia.
  - unfold onSocketMessage. destruct (sockets b !! ws); [|done].
    destruct (_ && _); [|done]. by destruct (onMessage _ _ _).
  - unfold onSocketClose. destruct (sockets b !! ws); [|done].
    case_bool_decide; [|done]. simpl.
    destruct (_ && _); simpl; by rewrite length_alter.
  - unfold sendNotification. repeat case_match; done.
Qed.

(** The token and the name of the bridge never change. *)
Lemma step_authToken e b : authToken (step e b).1 = authToken b.
Proof.
  destruct e as [token|ws msg|ws|m p]; simpl.
  - unfold onConnection. simpl. case_bool_decide; simpl; [done|].
    destruct (currentClient b) as [c|]; simpl; [|done].
    case_bool_decide; done.
  - unfold onSocketMessage. destruct (sockets b !! ws); [|done].
    destruct (_ && _); [|done]. by destruct (onMessage _ _ _).
  - unfold onSocketClose. destruct (sockets b !! ws); [|done].
    case_bool_decide; [|done]. simpl. by destruct (_ && _).
  - unfold sendNotification. repeat case_match; done.
Qed.

(** The listeners are put on a socket at its ['connection'] event only. *)
Lemma step_listening e b w :
  w < length (sockets b) →
  listening <$> sockets (step e b).1 !! w = listening <$> sockets b !! w.
Proof.
  intros Hw. destruct e as [token|ws msg|ws|m p]; simpl.
  - unfold onConnection. simpl. case_bool_decide; simpl.
    + rewrite lookup_alter_listening by done. by rewrite lookup_app_l.
    + destruct (currentClient b) as [c|]; simpl.
      * case_bool_decide; simpl.
        -- rewrite list_lookup_alter_ne by lia.
           rewrite lookup_alter_listening by done. by rewrite lookup_app_l.
        -- rewrite list_lookup_alter_ne by lia. by rewrite lookup_app_l.
      * rewrite list_lookup_alter_ne by lia. by rewrite lookup_app_l.
  - unfold onSocketMessage. destruct (sockets b !! ws); [|done].
    destruct (_ && _); [|done]. by destruct (onMessage _ _ _).
  - unfold onSocketClose. destruct (sockets b !! ws); [|done].
    case_bool_decide; [|done]. simpl.
    destruct (_ && _); simpl; by rewrite lookup_alter_listening.
  - unfold sendNotification. repeat case_match; done.
Qed.

(** The current client stays, or is forgotten, or is the socket of an
    authorized ['connection'] event. *)
Lemma step_currentClient e b :
  currentClient (step e b).1 = currentClient b ∨
  currentClient (step e b).1 = None ∨
  (authorized (authToken b) e = true ∧
   currentClient (step e b).1 = Some (length (sockets b))).
Proof.
  destruct e as [token|ws msg|ws|m p]; simpl.
  - unfold onConnection. simpl. case_bool_decide as E; simpl; [by left|].
    right; right. split.
    + apply bool_decide_eq_true_2. destruct (decide (token = Some (authToken b))); [done|].
      by destruct E.
    + destruct (currentClient b) as [c|]; simpl; [|done]. case_bool_decide; done.
  - left. unfold onSocketMessage. destruct (sockets b !! ws); [|done].
    destruct (_ && _); [|done]. by destruct (onMessage _ _ _).
  - unfold onSocketClose. destruct (sockets b !! ws); [|by left].
    case_bool_decide; [|by left]. simpl. destruct (_ && _); simpl; [right|]; by left.
  - left. unfold sendNotification. repeat case_match; done.
Qed.

(** What is sent on a socket: responses to a message received on it, or a
    notification when it is the current client. *)
Lemma step_calls e b w f :
  Send w f ∈ (step e b).2 →
  (is_notification f = false ∧ receives w b = true) ∨
  (is_notification f = true ∧ currentClient b = Some w).
Proof.
  destruct e as [token|ws msg|ws|m p]; simpl.
  - unfold onConnection. simpl. case_bool_decide; simpl.
    + intros Hin. apply list_elem_of_singleton in Hin. done.
    + destruct (currentClient b) as [c|]; simpl.
      * case_bool_decide; simpl; intros Hin;
          [apply list_elem_of_singleton in Hin; done|by apply elem_of_nil in Hin].
      * intros Hin. by apply elem_of_nil in Hin.
  - unfold onSocketMessage, receives. destruct (sockets b !! ws) as [s|] eqn:Hs;
      [|intros Hin; by apply elem_of_nil in Hin].
    destruct (_ && _) eqn:Hr; [|intros Hin; by apply elem_of_nil in Hin].
    destruct (onMessage _ _ _) as [i frames] eqn:Hm. simpl.
    intros Hin. apply list_elem_of_fmap in Hin as (f' & [= -> ->] & Hin).
    left. rewrite Hs. split; [|done].
    assert (frames = (onMessage (ideName b) (initialized b) msg).2) as -> by by rewrite Hm.
    clear Hm. revert Hin. unfold onMessage.
    repeat case_match; simpl; intros Hin;
      first [by apply elem_of_nil in Hin | apply list_elem_of_singleton in Hin; by subst].
  - unfold onSocketClose. intros Hin. exfalso. revert Hin.
    destruct (sockets b !! ws); [|apply not_elem_of_nil].
    case_bool_decide; [|apply not_elem_of_nil]. simpl.
    destruct (_ && _); apply not_elem_of_nil.
  - unfold sendNotification. destruct (currentClient b) as [c|];
      [|intros Hin; by apply elem_of_nil in Hin].
    destruct (sockets b !! c); [|intros Hin; by apply elem_of_nil in Hin].
    case_bool_decide; intros Hin; [|by apply elem_of_nil in Hin].
    apply list_elem_of_singleton in Hin as [= -> ->]. by right.
Qed.

(** *** Invariants *)

Lemma client_known_start ideName tok :
  client_known (startClaudeIdeBridge ideName tok).
Proof. intros c. done. Qed.

Lemma client_known_step e b : client_known b → client_known (step e b).1.
Proof.
  intros Hk c Hc. pose proof (step_length e b) as Hl.
  assert (length (sockets b) ≤ length (sockets (step e b).1)) as Hle
    by (rewrite Hl; destruct e; lia).
  destruct (step_currentClient e b) as [H|[H|[Ha H]]]; rewrite H in Hc.
  - specialize (Hk c Hc). lia.
  - done.
  - injection Hc as <-. destruct e; try done. rewrite Hl. lia.
Qed.

Lemma client_known_after es b : client_known b → client_known (after es b).
Proof.
  unfold after. revert b. induction es as [|e es IH]; intros b Hk; simpl; [done|].
  pose proof (client_known_step e b Hk) as H1. destruct (step e b) as [b1 c1].
  specialize (IH b1 H1). by destruct (run es b1).
Qed.

Lemma after_authToken es b : authToken (after es b) = authToken b.
Proof.
  unfold after. revert b. induction es as [|e es IH]; intros b; simpl; [done|].
  pose proof (step_authToken e b) as H. destruct (step e b) as [b1 c1].
  specialize (IH b1). destruct (run es b1). simpl in *. congruence.
Qed.

(** A property of the bridge that every event keeps, with a property of
    calls that every event then meets, holds all along a run. *)
Lemma run_invariant (I : bridge → Prop) (ok : event → bool) (P : call → Prop) :
  (∀ e b, I b → ok e = true →
          I (step e b).1 ∧ ∀ c, c ∈ (step e b).2 → P c) →
  ∀ es b, I b → forallb ok es = true →
          I (after es b) ∧ ∀ c, c ∈ calls es b → P c.
Proof.
  intros Hstep. unfold after, calls.
  induction es as [|e es IH]; intros b Hb Hok; simpl.
  - split; [done|]. intros c Hc. by apply elem_of_nil in Hc.
  - simpl in Hok. apply andb_true_iff in Hok as [Hoke Hokes].
    destruct (Hstep e b Hb Hoke) as [H1 H2].
    destruct (step e b) as [b1 c1]. simpl in *.
    destruct (IH b1 H1 Hokes) as [H3 H4].
    destruct (run es b1) as [b2 c2]. simpl in *. split; [done|].
    intros c Hc. apply elem_of_app in Hc as [Hc|Hc]; auto.
Qed.

Lemma forallb_const_true {A} (l : list A) : forallb (fun _ => true) l = true.
Proof. by induction l. Qed.

(** A socket without the listeners of the bridge stays so, and nothing is
    sent on it. *)
Lemma stranger_step ws e b :
  stranger ws b →
  stranger ws (step e b).1 ∧ ∀ c, c ∈ (step e b).2 → sends_to ws c = false.
Proof.
  intros [(s & Hs & Hl) Hc].
  assert (ws < length (sockets b)) as Hlt by by eapply lookup_lt_Some.
  split; [split|].
  - pose proof (step_listening e b ws Hlt) as H. rewrite Hs in H. simpl in H.
    destruct (sockets (step e b).1 !! ws) as [s'|]; [|done].
    exists s'. split; [done|]. injection H as H. congruence.
  - destruct (step_currentClient e b) as [H|[H|[_ H]]]; rewrite H; try done.
    intros [= E]. lia.
  - intros [w f|w code] Hin; [|done]. simpl.
    apply bool_decide_eq_false_2. intros ->.
    apply step_calls in Hin as [[_ Hr]|[_ Hcur]]; [|done].
    unfold receives in Hr. rewrite Hs, Hl in Hr. done.
Qed.

(** A socket that is not the current client never becomes it again, and no
    notification is sent on it. *)
Lemma displaced_step ws e b :
  displaced ws b →
  displaced ws (step e b).1 ∧ ∀ c, c ∈ (step e b).2 → notified ws c = false.
Proof.
  intros [Hlt Hc]. split; [split|].
  - rewrite step_length. destruct e; lia.
  - destruct (step_currentClient e b) as [H|[H|[_ H]]]; rewrite H; try done.
    intros [= E]. lia.
  - intros [w f|w code] Hin; [|done]. simpl.
    apply step_calls in Hin as [[-> _]|[_ Hcur]]; [apply andb_false_r|].
    rewrite bool_decide_eq_false_2; [done|]. intros ->. done.
Qed.

(** While no other authorized connection comes, the current client is no
    other socket, and notifications go to no other socket. *)
Lemma sole_peer_step tok ws e b :
  sole_peer ws b ∧ authToken b = tok →
  negb (authorized tok e) = true →
  (sole_peer ws (step e b).1 ∧ authToken (step e b).1 = tok) ∧
  ∀ c, c ∈ (step e b).2 →
    match c with Send w f => is_notification f = true → w = ws | Close _ _ => True end.
Proof.
  intros [[Hlt Hc] Htok] He. apply negb_true_iff in He. split; [split; [split|]|].
  - rewrite step_length. destruct e; lia.
  - intros c. destruct (step_currentClient e b) as [H|[H|[Ha _]]]; rewrite ?H; auto.
    + done.
    + congruence.
  - by rewrite step_authToken.
  - intros [w f|w code] Hin; [|done]. intros Hn.
    apply step_calls in Hin as [[Hf _]|[_ Hcur]]; [congruence|]. by apply Hc.
Qed.

(** *** The ['connection'] listener *)

Lemma onConnection_unauthorized token b :
  token ≠ Some (authToken b) →
  onConnection token b =
  (set_sockets (sockets b ++ [{| state := CLOSING; listening := false |}]) b,
   [Close (length (sockets b)) (Some 1008%Z)]).
Proof.
  intros Ht. unfold onConnection. simpl.
  rewrite bool_decide_eq_true_2 by done. unfold ws_close. simpl.
  replace (length (sockets b)) with (length (sockets b) + 0) at 1 by lia.
  by rewrite alter_app_r.
Qed.

Lemma onConnection_authorized b c :
  client_known b → currentClient b = Some c →
  onConnection (Some (authToken b)) b =
  ({| ideName := ideName b; authToken := authToken b; initialized := initialized b;
      currentClient := Some (length (sockets b));
      sockets := alter closing c (sockets b) ++ [{| state := OPEN; listening := true |}] |},
   [Close c None]).
Proof.
  intros Hk Hc. specialize (Hk c Hc). unfold onConnection. simpl.
  rewrite bool_decide_eq_false_2 by (intros ?; done). rewrite Hc.
  rewrite bool_decide_eq_true_2 by lia. simpl. f_equal. f_equal.
  rewrite alter_app_l by done.
  replace (length (sockets b)) with (length (alter closing c (sockets b)) + 0)
    by (rewrite length_alter; lia).
  by rewrite alter_app_r.
Qed.

(** C6. A connection whose [x-claude-code-ide-authorization] header is not
    the token of the bridge (or is missing) is closed with code 1008, and
    nothing else is done to it: whatever happens afterwards, the bridge sends
    nothing on that socket, and a message that arrives on it is not handled
    (no call is made and the bridge does not change). *)
Theorem unauthorized_connection_rejected (ideName tok : jsstring)
    (pre es : list event) (token : option jsstring) (msg : option json) :
  token ≠ Some tok →
  let b := after pre (startClaudeIdeBridge ideName tok) in
  let ws := length (sockets b) in
  let b1 := (step (Connection token) b).1 in
  (step (Connection token) b).2 = [Close ws (Some 1008%Z)] ∧
  currentClient b1 = currentClient b ∧ initialized b1 = initialized b ∧
  (∀ c, c ∈ calls es b1 → sends_to ws c = false) ∧
  step (Message ws msg) (after es b1) = (after es b1, []).
Proof.
  intros Ht b ws b1.
  assert (authToken b = tok) as Htok by apply after_authToken.
  assert (client_known b) as Hk
    by apply client_known_after, client_known_start.
  assert (step (Connection token) b =
          (set_sockets (sockets b ++ [{| state := CLOSING; listening := false |}]) b,
           [Close ws (Some 1008%Z)])) as Hstep
    by (apply onConnection_unauthorized; by rewrite Htok).
  subst b1. rewrite Hstep. simpl.
  set (b1 := set_sockets _ b).
  assert (stranger ws b1) as Hs.
  { split.
    - eexists. split; [apply list_lookup_middle; done|done].
    - simpl. intros Hc. specialize (Hk _ Hc). unfold ws in Hk. lia. }
  destruct (run_invariant (stranger ws) (fun _ => true) (fun c => sends_to ws c = false))
    with (es := es) (b := b1) as [[(s & Hl & Hf) _] Hcalls]; auto.
  { intros e b' Hb' _. by apply stranger_step. }
  { apply forallb_const_true. }
  repeat split; [done|].
  unfold onSocketMessage. rewrite Hl, Hf. done.
Qed.

Lemma unauthorized_connection_rejected_witness :
  (step (Connection (Some (js "guess")))
     (after [Connection (Some secret)] (startClaudeIdeBridge (js "EnsoAI") secret))).2
  = [Close 1 (Some 1008%Z)].
Proof.
  apply (unauthorized_connection_rejected (js "EnsoAI") secret
           [Connection (Some secret)] [] (Some (js "guess")) None).
  vm_compute. discriminate.
Defined.

(** C5. When a second client connects with the token of the bridge while a
    first one is the current client, the socket of the first is closed and
    the second is the current client; a notification sent then goes to the
    second; whatever happens afterwards no notification is sent to the
    first, and as long as no further client is let in notifications go to no
    socket but the second. *)
Theorem last_connect_wins (ideName tok : jsstring) (pre es : list event)
    (A : nat) (method : jsstring) (params : json) :
  let b := after pre (startClaudeIdeBridge ideName tok) in
  let B := length (sockets b) in
  let b1 := (step (Connection (Some tok)) b).1 in
  currentClient b = Some A →
  (step (Connection (Some tok)) b).2 = [Close A None] ∧
  state <$> sockets b1 !! A ≠ Some OPEN ∧
  currentClient b1 = Some B ∧ A ≠ B ∧
  (step (SendNotification method params) b1).2 = [Send B (Notification method params)] ∧
  (∀ c, c ∈ calls es b1 → notified A c = false) ∧
  (forallb (fun e => negb (authorized tok e)) es = true →
   ∀ w f, Send w f ∈ calls es b1 → is_notification f = true → w = B).
Proof.
  intros b B b1 Hc.
  assert (authToken b = tok) as Htok by apply after_authToken.
  assert (client_known b) as Hk
    by apply client_known_after, client_known_start.
  pose proof (onConnection_authorized b A Hk Hc) as Hstep. rewrite Htok in Hstep.
  assert (A < B) as Hlt by apply (Hk A Hc).
  subst b1. change (step (Connection (Some tok)) b) with (onConnection (Some tok) b).
  rewrite Hstep. simpl. set (b1 := Build_bridge _ _ _ _ _).
  split; [done|]. split; [|split; [done|split; [lia|split; [|split]]]].
  - rewrite lookup_app_l by (rewrite length_alter; done).
    rewrite list_lookup_alter_eq. destruct (sockets b !! A) as [[[] ?]|]; done.
  - unfold sendNotification. simpl.
    rewrite list_lookup_middle by (by rewrite length_alter). done.
  - apply (run_invariant (displaced A) (fun _ => true) (fun c => notified A c = false)).
    + intros e b' Hb' _. by apply displaced_step.
    + split; simpl; [|intros [= E]; lia].
      rewrite length_app, length_alter. simpl. fold B. lia.
    + apply forallb_const_true.
  - intros Hes w f Hin.
    destruct (run_invariant (fun b' => sole_peer B b' ∧ authToken b' = tok)
                (fun e => negb (authorized tok e))
                (fun c => match c with
                          | Send w f => is_notification f = true → w = B
                          | Close _ _ => True
                          end))
      with (es := es) (b := b1) as [_ Hcalls]; auto.
    + intros e b' Hb' He. by apply sole_peer_step.
    + split; [split|done]; simpl.
      * rewrite length_app, length_alter. simpl. fold B. lia.
      * by intros c [= <-].
    + apply (Hcalls _ Hin).
Qed.

Lemma last_connect_wins_witness :
  (step (Connection (Some secret))
     (after [Connection (Some secret)] (startClaudeIdeBridge (js "EnsoAI") secret))).2
  = [Close 0 None].
Proof.
  apply (last_connect_wins (js "EnsoAI") secret [Connection (Some secret)] [] 0
           (js "selection_changed") (JObj [])).
  reflexivity.
Defined.

(** *** The [initialized] flag *)

(** C2, as the claim has it: the second connection would start with the
    flag false and be answered -32002.  It is answered with the tool list:
    the flag the first connection set is still set. *)
Lemma initialized_per_connection_counterexample :
  run second_client_session (startClaudeIdeBridge (js "EnsoAI") secret) =
  ({| ideName := js "EnsoAI"; authToken := secret; initialized := true;
      currentClient := Some 1;
      sockets := [{| state := CLOSING; listening := true |};
                  {| state := OPEN; listening := true |}] |},
   [Close 0 None;
    Send 1 (Result (JStr (js "q1")) (JObj [(js "tools", JArr [])]))]).
Proof. vm_compute. reflexivity. Qed.

(** The flag after an event. *)
Lemma step_initialized e b :
  initialized (step e b).1 =
  initialized b ||
  match e with
  | Message ws msg => receives ws b && is_initialized_notification msg
  | _ => false
  end.
Proof.
  destruct e as [token|ws msg|ws|m p]; simpl; rewrite ?orb_false_r.
  - unfold onConnection. simpl. case_bool_decide; simpl; [done|].
    destruct (currentClient b) as [c|]; simpl; [|done]. case_bool_decide; done.
  - unfold onSocketMessage, receives. destruct (sockets b !! ws) as [s|];
      [|by rewrite orb_false_r].
    destruct (_ && _); simpl; [|by rewrite orb_false_r].
    pose proof (onMessage_initialized (ideName b) (initialized b) msg) as H.
    by destruct (onMessage _ _ _).
  - unfold onSocketClose. destruct (sockets b !! ws); [|done].
    case_bool_decide; [|done]. simpl. by destruct (_ && _).
  - unfold sendNotification. repeat case_match; done.
Qed.

(** C2, amended.  The [initialized] flag is state of the one JSON-RPC
    handler of the bridge, shared by all its connections.  It is false when
    the bridge starts; an event sets it exactly when it is the notification
    [notifications/initialized] received on a socket the bridge listens to;
    no event, in particular no new connection, clears it.  So a connection
    that displaces an initialized one is answered as initialized: its
    [tools/list] gets the tool list. *)
Theorem initialized_shared_by_connections (ideName tok : jsstring)
    (pre : list event) (e : event) (req : option json) (id : json) :
  let b := after pre (startClaudeIdeBridge ideName tok) in
  let B := length (sockets b) in
  initialized (startClaudeIdeBridge ideName tok) = false ∧
  initialized (step e b).1 =
    (initialized b ||
     match e with
     | Message ws msg => receives ws b && is_initialized_notification msg
     | _ => false
     end) ∧
  (initialized b = true → is_request req "tools/list" id →
   (step (Message B req) (step (Connection (Some tok)) b).1).2
     = [Send B (Result id (JObj [(js "tools", JArr [])]))]).
Proof.
  intros b B. split; [done|]. split; [apply step_initialized|].
  intros Hi Hr.
  assert (authToken b = tok) as Htok by apply after_authToken.
  assert (client_known b) as Hk
    by apply client_known_after, client_known_start.
  pose proof (step_initialized (Connection (Some tok)) b) as Hflag.
  rewrite orb_false_r, Hi in Hflag.
  assert (sockets (step (Connection (Some tok)) b).1 !! B
          = Some {| state := OPEN; listening := true |}) as Hsock.
  { simpl. unfold onConnection. simpl.
    rewrite bool_decide_eq_false_2 by (rewrite Htok; intros ?; done).
    destruct (currentClient b) as [c|] eqn:Hc; simpl.
    - specialize (Hk c Hc). rewrite bool_decide_eq_true_2 by lia. simpl.
      rewrite list_lookup_alter_eq, list_lookup_alter_ne by (fold B; lia).
      by rewrite list_lookup_middle.
    - rewrite list_lookup_alter_eq. by rewrite list_lookup_middle. }
  destruct (step (Connection (Some tok)) b) as [b1 c1]. simpl in *.
  unfold onSocketMessage. rewrite Hsock. simpl.
  pose proof (onMessage_tools_list (Bridge.ideName b1) (initialized b1) req id Hr) as Hout.
  destruct (onMessage _ _ _) as [i frames]. simpl in *.
  rewrite Hout, Hflag. done.
Qed.

Lemma initialized_shared_by_connections_witness :
  (step (Message 1 (request "tools/list" (JStr (js "q1"))))
     (step (Connection (Some secret))
        (after [Connection (Some secret); Message 0 initialized_notification]
           (startClaudeIdeBridge (js "EnsoAI") secret))).1).2
  = [Send 1 (Result (JStr (js "q1")) (JObj [(js "tools", JArr [])]))].
Proof.
  apply (proj2 (proj2 (initialized_shared_by_connections (js "EnsoAI") secret
           [Connection (Some secret); Message 0 initialized_notification]
           (Closed 0) (request "tools/list" (JStr (js "q1"))) (JStr (js "q1"))))).
  - reflexivity.
  - apply request_is_request.
Defined.

End BridgeProofs.

(** ** Further properties of the line framer *)
Module FramerMore.
Import StreamJsonParser FramerSpec FramerProofs FramerMoreSpec.

(** No piece of a split holds a line feed. *)
Lemma split_no_LF s l : l ∈ split s → LF ∉ l.
Proof.
  remember (length s) as n eqn:Hn. revert s l Hn.
  induction n as [n IH] using lt_wf_ind. intros s l Hn.
  destruct s as [|c t]; [simpl; intros ->%list_elem_of_singleton; apply not_elem_of_nil|].
  destruct (split_cases c t) as [->|[[-> [t' ->]]|[Hc Hcr]]].
  - rewrite split_LF. intros [->|Hin]%elem_of_cons; [apply not_elem_of_nil|].
    eapply (IH (length t)); [simpl in Hn; lia|done|done].
  - rewrite split_CRLF. intros [->|Hin]%elem_of_cons; [apply not_elem_of_nil|].
    eapply (IH (length t')); [simpl in Hn; lia|done|done].
  - rewrite (split_cons_other c t Hc Hcr).
    pose proof (split_nonempty t) as Hne.
    destruct (split t) as [|l0 ls] eqn:E; [done|]. simpl.
    intros [->|Hin]%elem_of_cons.
    + intros [?|Hl]%elem_of_cons; [done|].
      eapply (IH (length t)); [simpl in Hn; lia|done| |exact Hl].
      rewrite E. apply list_elem_of_here.
    + eapply (IH (length t)); [simpl in Hn; lia|done|].
      rewrite E. by apply list_elem_of_further.
Qed.

Lemma last_piece_no_LF s : LF ∉ last_piece s.
Proof.
  unfold last_piece. destruct (last (split s)) as [l|] eqn:E; simpl.
  - apply (split_no_LF s). apply last_Some in E as [l' ->].
    apply elem_of_app. right. apply list_elem_of_here.
  - apply not_elem_of_nil.
Qed.

(** A string without line feed is one piece. *)
Lemma split_without_LF s : LF ∉ s → split s = [s].
Proof.
  induction s as [|c t IH]; [done|]. intros Hn.
  apply not_elem_of_cons in Hn as [Hc Ht].
  rewrite split_cons_other; [by rewrite IH| by auto |].
  intros [_ Hh]. destruct t as [|c' t']; [done|]. injection Hh as ->.
  apply Ht. apply list_elem_of_here.
Qed.

(** A split has one piece more than the string has line feeds. *)
Lemma split_length s : length (split s) = S (line_feeds s).
Proof.
  remember (length s) as n eqn:Hn. revert s Hn.
  induction n as [n IH] using lt_wf_ind. intros s Hn.
  destruct s as [|c t]; [done|].
  destruct (split_cases c t) as [->|[[-> [t' ->]]|[Hc Hcr]]].
  - rewrite split_LF. simpl. f_equal. apply (IH (length t)); [simpl in Hn; lia|done].
  - rewrite split_CRLF. simpl. f_equal. apply (IH (length t')); [simpl in Hn; lia|done].
  - rewrite (split_cons_other c t Hc Hcr).
    pose proof (split_nonempty t) as Hne.
    pose proof (IH (length t) ltac:(simpl in Hn; lia) t eq_refl) as Ht.
    unfold line_feeds. simpl. rewrite bool_decide_eq_false_2 by done.
    destruct (split t) as [|l0 ls]; [done|]. exact Ht.
Qed.

Lemma parse_line_length JSON_parse line : length (parse_line JSON_parse line) ≤ 1.
Proof.
  unfold parse_line. destruct (trim _) as [|c r]; simpl; [lia|].
  case_bool_decide; simpl; [|lia]. destruct (JSON_parse _); simpl; lia.
Qed.

Lemma parse_lines_length JSON_parse lines :
  length (concat (map (parse_line JSON_parse) lines)) ≤ length lines.
Proof.
  induction lines as [|l ls IH]; simpl; [lia|].
  rewrite length_app. pose proof (parse_line_length JSON_parse l). lia.
Qed.

Lemma removelast_length {A} (l : list A) : length (removelast l) = pred (length l).
Proof. induction l as [|x [|y l] IH]; simpl in *; [done|done|]. by rewrite IH. Qed.

Section Framer.

Variable JSON_parse : jsstring -> option json.

(** X1. After any call of [parse], from any state, the buffer holds no line
    feed: it never holds a terminated line. *)
Theorem parse_buffer_has_no_line_feed (this : t) (chunk : jsstring) :
  LF ∉ buffer (parse JSON_parse this chunk).1.
Proof. rewrite parse_unfold. simpl. apply last_piece_no_LF. Qed.

(** X2. A chunk that brings no line feed to a buffer is kept whole: [parse]
    returns no event and the buffer becomes the old buffer followed by the
    chunk. *)
Theorem parse_without_line_feed (this : t) (chunk : jsstring) :
  LF ∉ buffer this → LF ∉ chunk →
  parse JSON_parse this chunk = ({| buffer := buffer this ++ chunk |}, []).
Proof.
  intros Hb Hc. rewrite parse_unfold. unfold last_piece.
  rewrite split_without_LF; [done|].
  intros [?|?]%elem_of_app; done.
Qed.

(** X3. [parse] returns at most one event for each line feed that its input,
    the buffer followed by the chunk, holds. *)
Theorem parse_events_bounded (this : t) (chunk : jsstring) :
  length (parse JSON_parse this chunk).2 ≤ line_feeds (buffer this ++ chunk).
Proof.
  rewrite parse_unfold. simpl.
  pose proof (split_length (buffer this ++ chunk)) as Hl.
  pose proof (removelast_length (split (buffer this ++ chunk))) as Hr.
  rewrite Hl in Hr. simpl in Hr. rewrite <- Hr.
  apply parse_lines_length.
Qed.

End Framer.

Lemma parse_without_line_feed_witness :
  parse parse_empty_object {| buffer := js "{" |} (js "}")
  = ({| buffer := js "{}" |}, []).
Proof.
  apply (parse_without_line_feed parse_empty_object {| buffer := js "{" |} (js "}"));
    vm_compute; intros H; by apply list_elem_of_In in H as [[=]|[]].
Defined.

(** A code unit that is neither a line feed nor a carriage return stays in
    front of the first piece. *)
Lemma split_cons_plain c t :
  c ≠ LF → c ≠ CR → split (c :: t) = cons_head c (split t).
Proof. intros Hc Hr. apply split_cons_other; [done|]. by intros [? _]. Qed.

(** A line without line feed or carriage return, followed by a terminator,
    is the one complete piece. *)
Lemma split_terminated text :
  LF ∉ text → CR ∉ text →
  split (text ++ [LF]) = [text; []] ∧ split (text ++ [CR; LF]) = [text; []].
Proof.
  induction text as [|c t IH]; [done|].
  intros [Hc Ht]%not_elem_of_cons [Hc' Ht']%not_elem_of_cons.
  destruct (IH Ht Ht') as [IH1 IH2].
  rewrite <- !app_comm_cons.
  by rewrite !split_cons_plain, IH1, IH2.
Qed.

(** No match of [ansiRegex] starts at a code unit that is no introducer. *)
Lemma ansiRegex_needs_introducer c t :
  c ≠ 27%N → c ≠ 155%N → Regex.match_length ansiRegex (c :: t) = None.
Proof.
  intros H1 H2. unfold Regex.match_length, ansiRegex. cbn [Regex.rmatch].
  by rewrite !bool_decide_eq_false_2.
Qed.

(** With no match in progress, the scan keeps a string without introducer. *)
Lemma remove_from_plain (s : jsstring) :
  no_introducer s → Regex.remove_from ansiRegex 0 s = s.
Proof.
  intros [H1 H2].
  induction s as [|c t IH]; [done|].
  apply not_elem_of_cons in H1 as [Hc1 Ht1].
  apply not_elem_of_cons in H2 as [Hc2 Ht2].
  cbn [Regex.remove_from].
  rewrite ansiRegex_needs_introducer by done. by rewrite IH.
Qed.

(** X4. [ansiRegex] takes nothing from a string that holds neither of the
    introducers 0x1b and 0x9b: the text of such a line reaches [JSON.parse]
    as it is, but for the trimming. *)
Theorem remove_ansi_without_introducer (s : jsstring) :
  no_introducer s → Regex.remove_all ansiRegex s = s.
Proof.
  intros Hs. unfold Regex.remove_all. exact (remove_from_plain s Hs).
Qed.

Lemma remove_ansi_without_introducer_witness :
  Regex.remove_all ansiRegex (js "{}") = js "{}".
Proof.
  apply (remove_ansi_without_introducer (js "{}")).
  split; vm_compute; intros H; by apply list_elem_of_In in H as [[=]|[[=]|[]]].
Defined.

Section Lines.

Variable JSON_parse : jsstring -> option json.

(** A complete line empties the buffer and gives the events of that line. *)
Lemma parse_one_line (this : t) (rest text : jsstring) :
  text = buffer this ++ rest → LF ∉ text → CR ∉ text →
  parse JSON_parse this (rest ++ [LF])
    = ({| buffer := [] |}, parse_line JSON_parse text) ∧
  parse JSON_parse this (rest ++ [CR; LF])
    = ({| buffer := [] |}, parse_line JSON_parse text).
Proof.
  intros -> Hl Hr. rewrite !parse_unfold. unfold last_piece.
  rewrite !(assoc_L (++)).
  destruct (split_terminated _ Hl Hr) as [-> ->]. simpl.
  by rewrite app_nil_r.
Qed.

(** X5. A complete line of clean JSON is decoded: when the buffer followed
    by the chunk is a text that starts with a brace, has no line break, no
    ANSI introducer and no space around it, and that [JSON.parse] reads as
    [v], then the text ended by a line feed, or by a carriage return and a
    line feed, gives the one event [v] and leaves the buffer empty. *)
Theorem parse_clean_json_line (this : t) (rest text : jsstring) (v : json) :
  text = buffer this ++ rest → LF ∉ text → CR ∉ text →
  no_introducer text → trim text = text → head text = Some 123%N →
  JSON_parse text = Some v →
  parse JSON_parse this (rest ++ [LF]) = ({| buffer := [] |}, [v]) ∧
  parse JSON_parse this (rest ++ [CR; LF]) = ({| buffer := [] |}, [v]).
Proof.
  intros Ht Hl Hr Hi Htrim Hh Hv.
  destruct (parse_one_line this rest text Ht Hl Hr) as [-> ->].
  unfold parse_line, Regex.remove_all. rewrite (remove_from_plain text Hi), Htrim.
  destruct text as [|c r]; [done|]. injection Hh as ->.
  rewrite bool_decide_eq_true_2 by done. by rewrite Hv.
Qed.

(** X6. A complete line that, once the ANSI codes and the surrounding spaces
    are removed, does not start with a brace gives no event and empties the
    buffer, whatever [JSON.parse] would make of it. *)
Theorem parse_noise_line (this : t) (rest text : jsstring) :
  text = buffer this ++ rest → LF ∉ text → CR ∉ text →
  head (trim (Regex.remove_all ansiRegex text)) ≠ Some 123%N →
  parse JSON_parse this (rest ++ [LF]) = ({| buffer := [] |}, []) ∧
  parse JSON_parse this (rest ++ [CR; LF]) = ({| buffer := [] |}, []).
Proof.
  intros Ht Hl Hr Hh.
  destruct (parse_one_line this rest text Ht Hl Hr) as [-> ->].
  unfold parse_line. destruct (trim _) as [|c r]; [done|].
  rewrite bool_decide_eq_false_2; [done|]. intros ->. by apply Hh.
Qed.

(** X7. However many chunks an input is cut into, feeding them one after
    the other gives the events, in order, and the buffer that feeding their
    concatenation in one call gives. *)
Theorem parse_any_chunking (this : t) (chunks : list jsstring) :
  chunks ≠ [] →
  parse_all JSON_parse this chunks = parse JSON_parse this (concat chunks).
Proof.
  destruct chunks as [|chunk chunks]; [done|]. intros _. apply parse_all_concat.
Qed.

End Lines.

Ltac not_in_list :=
  vm_compute; intros H; apply list_elem_of_In in H; simpl in H;
  repeat (destruct H as [H|H]; [discriminate H|]); exact H.

Lemma parse_clean_json_line_witness :
  parse parse_empty_object {| buffer := js "{" |} (js "}" ++ [LF])
    = ({| buffer := [] |}, [JObj []]) ∧
  parse parse_empty_object {| buffer := js "{" |} (js "}" ++ [CR; LF])
    = ({| buffer := [] |}, [JObj []]).
Proof.
  apply (parse_clean_json_line parse_empty_object {| buffer := js "{" |} (js "}")
           (js "{}") (JObj [])); try reflexivity; try not_in_list.
  split; not_in_list.
Defined.

Lemma parse_noise_line_witness :
  parse parse_empty_object new (hello_line ++ [LF])
    = ({| buffer := [] |}, []) ∧
  parse parse_empty_object new (hello_line ++ [CR; LF])
    = ({| buffer := [] |}, []).
Proof.
  apply (parse_noise_line parse_empty_object new hello_line
           hello_line); try reflexivity; try not_in_list.
  vm_compute. discriminate.
Defined.

Lemma parse_any_chunking_witness :
  parse_all parse_empty_object new [js "{"; js "}"; [LF]; js "x"]
  = parse parse_empty_object new (js "{}" ++ [LF] ++ js "x").
Proof.
  apply (parse_any_chunking parse_empty_object new [js "{"; js "}"; [LF]; js "x"]).
  discriminate.
Defined.

End FramerMore.

(** ** Further properties of the classifiers *)
Module ClassifierMore.
Import StreamJsonParser ClassifierSpec ClassifierProofs ClassifierMoreSpec.

Lemma is_str_differ v a b : a ≠ b → is_str v a = true → is_str v b = false.
Proof.
  intros Hab Ha. apply is_str_true in Ha as ->. simpl.
  by apply bool_decide_eq_false_2.
Qed.

Ltac str_ne := vm_compute; intros Hne; discriminate Hne.

(** X8. [extractCost] gives a number exactly when the record is a result
    whose [total_cost_usd] is that number; in every other case, a record of
    another type or a cost that is no number, it gives [null]. *)
Theorem extractCost_spec (event : StreamEvent) :
  (∀ x, extractCost event = JNum x ↔
        isResultEvent event = true ∧ prop event "total_cost_usd" = Some (JNum x)) ∧
  (extractCost event = JNull ∨ ∃ x, extractCost event = JNum x) ∧
  (isResultEvent event = false → extractCost event = JNull).
Proof.
  unfold extractCost, isResultEvent.
  destruct (is_str (prop event "type") (js "result")); simpl.
  - destruct (prop event "total_cost_usd") as [[| |x0| | |]|]; simpl;
      (split; [intros y; split; [intros [=]; subst; done|intros [_ [=]]; subst; done]|]);
      (split; [eauto|done]).
  - split; [intros y; split; [done|by intros [? _]]|]. split; [by left|done].
Qed.

(** X9. A record is of at most one of the kinds init, error, result and
    stream; a record that ends a message is of the stream kind and gives no
    text, and a record that gives a text is of the stream kind and ends no
    message. *)
Theorem kinds_exclusive (event : StreamEvent) :
  kinds event ≤ 1 ∧
  (isMessageEndEvent event = true →
   isStreamEvent event = true ∧ extractTextDelta event = JNull) ∧
  (extractTextDelta event ≠ JNull →
   isStreamEvent event = true ∧ isMessageEndEvent event = false).
Proof.
  unfold kinds, isInitEvent, isErrorEvent, isResultEvent, isStreamEvent,
    isMessageEndEvent, extractTextDelta.
  split; [|split].
  - destruct (is_str (prop event "type") (js "system")) eqn:Hs.
    + rewrite (is_str_differ _ (js "system") (js "result") ltac:(str_ne) Hs).
      rewrite (is_str_differ _ (js "system") (js "stream_event") ltac:(str_ne) Hs). simpl.
      destruct (is_str (prop event "subtype") (js "init")) eqn:Hi.
      * rewrite (is_str_differ _ (js "init") (js "error") ltac:(str_ne) Hi). simpl. lia.
      * destruct (is_str _ (js "error")); simpl; lia.
    + simpl. destruct (is_str (prop event "type") (js "result")) eqn:Hr.
      * rewrite (is_str_differ _ (js "result") (js "stream_event") ltac:(str_ne) Hr). simpl. lia.
      * destruct (is_str _ (js "stream_event")); simpl; lia.
  - intros [-> Hm]%andb_true_iff. split; [done|].
    by rewrite (is_str_differ _ (js "message_stop") (js "content_block_delta") ltac:(str_ne) Hm).
  - destruct (is_str (prop event "type") (js "stream_event")); [|done]. simpl.
    destruct (is_str _ (js "content_block_delta")) eqn:Hd; [|done]. intros _.
    split; [done|].
    by rewrite (is_str_differ _ (js "content_block_delta") (js "message_stop") ltac:(str_ne) Hd).
Qed.

Lemma kinds_exclusive_witness :
  isStreamEvent message_stop = true ∧ extractTextDelta message_stop = JNull.
Proof.
  apply (proj1 (proj2 (kinds_exclusive message_stop))). reflexivity.
Defined.

(** X10. What [extractModel] gives is a string or [null], never another
    value; and on a result record without a string [model] it gives [null]
    when [modelUsage] is missing, is [null], or is a mapping with no key. *)
Theorem extractModel_string_or_null (event : StreamEvent) :
  (extractModel event = JNull ∨ ∃ s, extractModel event = JStr s) ∧
  (typeof_string (prop event "model") = false →
   prop event "modelUsage" = None ∨ prop event "modelUsage" = Some JNull ∨
   prop event "modelUsage" = Some (JObj []) →
   extractModel event = JNull).
Proof.
  unfold extractModel. split.
  - destruct (is_str _ _); [|by left].
    destruct (prop event "model") as [[]|]; simpl; eauto;
      destruct (prop event "modelUsage") as [u|]; eauto;
      destruct (truthy u); eauto;
      destruct (Object_keys u); simpl; eauto.
  - intros -> Hu. destruct (is_str _ _); [|done].
    destruct Hu as [->|[->| ->]]; done.
Qed.

Lemma extractModel_string_or_null_witness :
  extractModel [(js "type", JStr (js "result")); (js "modelUsage", JObj [])] = JNull.
Proof.
  apply (proj2 (extractModel_string_or_null
           [(js "type", JStr (js "result")); (js "modelUsage", JObj [])])).
  - reflexivity.
  - right. right. reflexivity.
Defined.

Lemma extractCost_spec_witness :
  extractCost delta_ab = JNull.
Proof.
  apply (proj2 (proj2 (extractCost_spec delta_ab))). reflexivity.
Defined.

End ClassifierMore.

(** ** Further properties of the review session *)
Module CodeReviewMore.
Import StreamJsonParser CodeReview CodeReviewSpec CodeReviewMoreSpec.
Import ClassifierSpec ClassifierProofs ClassifierMore FramerProofs.

Lemma result_not_error (event : StreamEvent) :
  isResultEvent event = true → isErrorEvent event = false.
Proof.
  unfold isResultEvent, isErrorEvent. intros Hr.
  by rewrite (is_str_differ _ (js "result") (js "system") ltac:(str_ne) Hr).
Qed.

(** [startReview] without a repository path (none, or the empty
    string) only reports the error: the status becomes [error] with the
    message of the missing path, and nothing else changes; no terminal is
    created or destroyed and the listeners stay as they were. *)
Theorem startReview_without_repository (repoPath : option jsstring)
    (created : option jsstring) (h : hook) :
  repoPath = None ∨ repoPath = Some [] →
  let h' := startReview repoPath created h in
  status h' = error ∧ errorText h' = Some (Text "No repository path") ∧
  content h' = content h ∧ cost h' = cost h ∧ model h' = model h ∧
  parser h' = parser h ∧ ptyId h' = ptyId h ∧ destroyed h' = destroyed h ∧
  onDataListener h' = onDataListener h ∧ onExitListener h' = onExitListener h.
Proof. intros [-> | ->]; repeat split. Qed.

Lemma startReview_without_repository_witness :
  status (startReview (Some []) (Some pty) streaming_review) = error ∧
  ptyId (startReview (Some []) (Some pty) streaming_review) = Some pty.
Proof.
  pose proof (startReview_without_repository (Some []) (Some pty) streaming_review
                (or_intror eq_refl)) as H.
  split; [apply H|]. destruct H as (_ & _ & _ & _ & _ & _ & -> & _). reflexivity.
Defined.



(** X12. An event of the subprocess never takes text away and never touches
    the terminal: [handleEvent] leaves the text the hook has as a prefix of
    the new text, and leaves the parser, the terminal, the listeners and
    the record of destroyed terminals as they are.  The status it leads to
    is [streaming] for an init record, [complete] for a result record,
    [error] for an error record, and the status the hook had for any other
    record. *)
Theorem handleEvent_appends (event : StreamEvent) (h : hook) :
  let h' := handleEvent event h in
  content h `prefix_of` content h' ∧
  status h' = next_status event (status h) ∧
  parser h' = parser h ∧ ptyId h' = ptyId h ∧ destroyed h' = destroyed h ∧
  onDataListener h' = onDataListener h ∧ onExitListener h' = onExitListener h.
Proof.
  unfold handleEvent, next_status. cbv zeta.
  destruct (isInitEvent event); [by repeat split|].
  destruct (isResultEvent event) eqn:Hr.
  - rewrite (result_not_error event Hr).
    destruct (truthy (extractTextDelta event)), (isMessageEndEvent event),
      (extractCost event), (extractModel event); simpl;
      repeat split; try done;
      first [apply prefix_app_r; done | by eexists
            | rewrite <- (assoc_L (++)); apply prefix_app_r; done].
  - destruct (truthy (extractTextDelta event)), (isMessageEndEvent event),
      (isErrorEvent event); simpl; repeat split; try done;
      first [apply prefix_app_r; done | by eexists
            | rewrite <- (assoc_L (++)); apply prefix_app_r; done].
Qed.

Lemma handleEvent_appends_witness :
  content (handleEvent delta_ab streaming_review) = [JStr (js "ab")] ∧
  status (handleEvent delta_ab streaming_review) = streaming.
Proof.
  pose proof (handleEvent_appends delta_ab streaming_review) as (_ & Hs & _).
  split; [reflexivity|exact Hs].
Defined.

(** A result record records the cost and the model it carries and keeps
    the ones the hook had when it carries none; a record of another kind
    leaves both as they are. *)
Theorem handleEvent_cost_and_model (event : StreamEvent) (h : hook) :
  let h' := handleEvent event h in
  cost h' = (if isResultEvent event
             then match extractCost event with JNull => cost h | c => c end
             else cost h) ∧
  model h' = (if isResultEvent event
              then match extractModel event with JNull => model h | m => m end
              else model h).
Proof.
  unfold handleEvent. cbv zeta.
  destruct (isInitEvent event) eqn:Hi.
  - assert (isResultEvent event = false) as ->; [|done].
    unfold isInitEvent in Hi. apply andb_true_iff in Hi as [Hi _].
    unfold isResultEvent.
    by rewrite (is_str_differ _ (js "system") (js "result") ltac:(str_ne) Hi).
  - destruct (isResultEvent event) eqn:Hr.
    + rewrite (result_not_error event Hr).
      destruct (truthy (extractTextDelta event)), (isMessageEndEvent event),
        (extractCost event), (extractModel event); done.
    + destruct (truthy (extractTextDelta event)), (isMessageEndEvent event),
        (isErrorEvent event); done.
Qed.





Section OnData.

Variable JSON_parse : jsstring -> option json.



End OnData.

(** X15. An exit of the terminal the hook listens to, with a code that is
    not 0, puts the hook in [error] with the message of that code, unless
    the status its listener tests is [complete], and then the status becomes
    [complete]; in both cases the hook forgets the terminal, so that a
    later clean-up does not destroy it.  The exit of any other terminal
    changes nothing. *)
Theorem onExit_nonzero (h : hook) (id other : jsstring) (tested : ReviewStatus)
    (exitCode : Z) :
  onExitListener h = Some (id, tested) → exitCode ≠ 0%Z → other ≠ id →
  let h' := onExit id exitCode h in
  (tested ≠ complete →
   status h' = error ∧ errorText h' = Some (ExitedWithCode exitCode)) ∧
  (tested = complete → status h' = complete ∧ errorText h' = errorText h) ∧
  ptyId h' = None ∧ destroyed (cleanup h') = destroyed h ∧
  onExit other exitCode h = h.
Proof.
  intros Hl Hc Ho. unfold onExit. rewrite Hl. cbv zeta.
  rewrite (bool_decide_eq_false_2 (id ≠ id)) by (intros ?; done).
  rewrite (bool_decide_eq_true_2 (other ≠ id)) by done.
  rewrite (bool_decide_eq_true_2 (exitCode ≠ 0%Z)) by done.
  split; [|split].
  - intros Ht. rewrite (bool_decide_eq_true_2 (tested ≠ complete)) by done. done.
  - intros ->. rewrite (bool_decide_eq_false_2 (complete ≠ complete)) by (intros ?; done).
    done.
  - destruct (bool_decide (tested ≠ complete)); simpl;
      [|destruct (bool_decide (tested ≠ error))]; done.
Qed.

Lemma onExit_nonzero_witness :
  status (onExit pty 1 streaming_review) = error ∧
  errorText (onExit pty 1 streaming_review) = Some (ExitedWithCode 1).
Proof.
  apply (proj1 (onExit_nonzero streaming_review pty pty2 idle 1 eq_refl
                  ltac:(discriminate) ltac:(vm_compute; discriminate))).
  discriminate.
Defined.

End CodeReviewMore.

(** ** Further properties of the lock file *)
Module LockFileMore.
Import LockFile LockFileSpec LockFileMoreSpec.

Section Files.

Variable path_join : list jsstring -> jsstring.
Variable JSON_stringify : json -> jsstring.
Variable proc : process.

Local Abbreviation ideDir := (getIdeDir path_join proc).
Local Abbreviation lockPath port := (lockPath_of path_join proc port).
Local Abbreviation write := (writeLockFile path_join JSON_stringify proc).
Local Abbreviation text := (text_of JSON_stringify proc).

(** All that a successful [writeLockFile] does. *)
Lemma writeLockFile_effect (port : nat) (authToken : jsstring)
    (workspaceFolders : option (list jsstring)) (ideName : option jsstring)
    (fs fs1 : filesystem) (p : jsstring) :
  write port authToken workspaceFolders ideName fs = Ok (fs1, p) →
  p = lockPath port ∧ p ≠ ideDir ∧ ¬ is_file (fs !! ideDir) ∧ ¬ is_dir (fs !! p) ∧
  fs1 !! ideDir = Some (Dir (default mode_700 (mode_of (fs !! ideDir)))) ∧
  fs1 !! p = Some (File (text authToken workspaceFolders ideName)
                        (default mode_600 (mode_of (fs !! p)))) ∧
  ∀ q, q ≠ ideDir → q ≠ p → fs1 !! q = fs !! q.
Proof.
  unfold lockPath_of, writeLockFile, ensureDir, mkdirSync, writeFileSync, text_of.
  set (dir := getIdeDir path_join proc). set (lp := path_join [dir; lock_name port]).
  destruct (decide (lp = dir)) as [E|Hne].
  { rewrite E. destruct (fs !! dir) as [[c m|m]|] eqn:Hd; simpl; [done| |].
    - rewrite Hd. done.
    - rewrite lookup_insert_eq. done. }
  destruct (fs !! dir) as [[c m|m]|] eqn:Hd; simpl; [done| |].
  - destruct (fs !! lp) as [[c' m'|m']|] eqn:Hp; simpl; [| done |];
      intros [= <- <-]; rewrite lookup_insert_eq, lookup_insert_ne, ?Hd, ?Hp by done;
      simpl; repeat split; auto; intros q _ Hq; by rewrite lookup_insert_ne.
  - rewrite lookup_insert_ne by done.
    destruct (fs !! lp) as [[c' m'|m']|] eqn:Hp; simpl; [| done |];
      intros [= <- <-];
      rewrite lookup_insert_eq, lookup_insert_ne, lookup_insert_eq, ?Hd, ?Hp by done;
      simpl; repeat split; auto; intros q Hq1 Hq2; by rewrite !lookup_insert_ne.
Qed.

(** When [writeLockFile] succeeds. *)
Lemma writeLockFile_succeeds_if (port : nat) (authToken : jsstring)
    (workspaceFolders : option (list jsstring)) (ideName : option jsstring)
    (fs : filesystem) :
  lockPath port ≠ ideDir → ¬ is_file (fs !! ideDir) → ¬ is_dir (fs !! lockPath port) →
  ∃ fs1, write port authToken workspaceFolders ideName fs = Ok (fs1, lockPath port).
Proof.
  unfold lockPath_of, writeLockFile, ensureDir, mkdirSync, writeFileSync.
  set (dir := getIdeDir path_join proc). set (lp := path_join [dir; lock_name port]).
  intros Hne Hf Hd.
  destruct (fs !! dir) as [[c m|m]|] eqn:Hdir; simpl in *; [done| |].
  - destruct (fs !! lp) as [[c' m'|m']|]; simpl in *; [eauto|done|eauto].
  - rewrite lookup_insert_ne by done.
    destruct (fs !! lp) as [[c' m'|m']|]; simpl in *; [eauto|done|eauto].
Qed.



(** X17. A lock file that [writeLockFile] creates has the mode 0o600 and a
    directory it creates the mode 0o700; a file or a directory that exists
    keeps the mode it has. *)
Theorem lock_file_modes (port : nat) (authToken : jsstring)
    (workspaceFolders : option (list jsstring)) (ideName : option jsstring)
    (fs fs1 : filesystem) (p : jsstring) :
  write port authToken workspaceFolders ideName fs = Ok (fs1, p) →
  mode_of (fs1 !! p) = Some (default mode_600 (mode_of (fs !! p))) ∧
  mode_of (fs1 !! ideDir) = Some (default mode_700 (mode_of (fs !! ideDir))) ∧
  is_file (fs1 !! p) ∧ is_dir (fs1 !! ideDir).
Proof.
  intros Hw. apply writeLockFile_effect in Hw as (_ & _ & _ & _ & -> & -> & _).
  done.
Qed.

(** X18. Each publication replaces the one before: once [writeLockFile] has
    succeeded, a second [writeLockFile] for the same port succeeds too,
    at the same path, and the file then holds the text of the second
    payload only; its mode is still the one it had. *)
Theorem writeLockFile_overwrites (port : nat) (token1 token2 : jsstring)
    (folders1 folders2 : option (list jsstring)) (name1 name2 : option jsstring)
    (fs fs1 : filesystem) (p : jsstring) :
  write port token1 folders1 name1 fs = Ok (fs1, p) →
  ∃ fs2, write port token2 folders2 name2 fs1 = Ok (fs2, p) ∧
         readFileSync p fs2 = Ok (text token2 folders2 name2) ∧
         mode_of (fs2 !! p) = mode_of (fs1 !! p) ∧
         ∀ q, q ≠ p → fs2 !! q = fs1 !! q.
Proof.
  intros Hw. apply writeLockFile_effect in Hw as (-> & Hne & _ & _ & Hd & Hp & _).
  destruct (writeLockFile_succeeds_if port token2 folders2 name2 fs1) as [fs2 Hw2];
    [done|rewrite Hd; simpl; auto|rewrite Hp; simpl; auto|].
  exists fs2. split; [done|].
  apply writeLockFile_effect in Hw2 as (_ & _ & _ & _ & Hd2 & Hp2 & Hf2).
  unfold readFileSync. rewrite Hp2, Hp. simpl. split; [done|]. split; [done|].
  intros q Hq. destruct (decide (q = getIdeDir path_join proc)) as [->|Hqd].
  - rewrite Hd2, Hd. done.
  - by apply Hf2.
Qed.


End Files.


Lemma lock_file_modes_witness :
  mode_of (sample_fs !! sample_lockPath) = Some mode_600 ∧
  mode_of (sample_fs !! js "/home/u/.claude/ide") = Some mode_700.
Proof.
  pose proof (lock_file_modes sample_join sample_stringify sample_process 4242
                (js "t0k") (Some [js "/w"]) (Some (js "EnsoAI")) ∅ sample_fs
                sample_lockPath) as H.
  destruct H as (H1 & H2 & _); [vm_compute; reflexivity|].
  split; [exact H1|exact H2].
Defined.

Lemma writeLockFile_overwrites_witness :
  ∃ fs2, writeLockFile sample_join sample_stringify sample_process 4242 (js "t0k")
           (Some []) None sample_fs = Ok (fs2, sample_lockPath) ∧
         readFileSync sample_lockPath fs2 = Ok sample_text.
Proof.
  destruct (writeLockFile_overwrites sample_join sample_stringify sample_process 4242
              (js "t0k") (js "t0k") (Some [js "/w"]) (Some []) (Some (js "EnsoAI")) None
              ∅ sample_fs sample_lockPath) as (fs2 & H1 & H2 & _);
    [vm_compute; reflexivity|].
  exists fs2. split; [exact H1|exact H2].
Defined.

End LockFileMore.

(** ** Further properties of the JSON-RPC handler *)
Module JsonRpcMore.
Import JsonRpc JsonRpcSpec JsonRpcProofs JsonRpcMoreSpec.

Lemma request_id_envelope msg id :
  request_id msg = Some id →
  ∃ m, msg = Some m ∧ truthy m = true ∧
       is_str (get_prop m (js "jsonrpc")) (js "2.0") = true ∧
       get_prop m (js "id") = Some id.
Proof.
  unfold request_id, envelope. destruct msg as [m|]; [|done].
  destruct (truthy m) eqn:Ht; [|done]. simpl.
  destruct (is_str _ _) eqn:Hv; [|done]. eauto.
Qed.


(** X21. [ping] and [initialize] are answered whether the handler is
    initialized or not, [ping] with an empty result and [initialize] with
    the capabilities and the name of the server; and [initialize] does not
    initialize: a [tools/list] that follows it, with no
    [notifications/initialized] in between, is still refused with -32002. *)
Theorem ping_and_initialize_need_no_initialization (ideName : jsstring)
    (initialized : bool) (req next : option json) (id id' : json) :
  (is_request req "ping" id →
   onMessage ideName initialized req = (initialized, [Result id (JObj [])])) ∧
  (is_request req "initialize" id →
   onMessage ideName initialized req
     = (initialized, [Result id (initialize_result ideName)]) ∧
   get_prop (initialize_result ideName) (js "serverInfo")
     = Some (JObj [(js "name", JStr ideName); (js "version", JStr (js "0.0.1"))]) ∧
   (is_request next "tools/list" id' →
    (onMessages ideName false [req; next]).2
      = [[Result id (initialize_result ideName)];
         [Error id' (-32002) (Lit "Server not initialized")]])).
Proof.
  split.
  - intros (props & -> & Hv & Hid & Hm). unfold onMessage, get_prop.
    by rewrite Hv, Hid, Hm.
  - intros (props & -> & Hv & Hid & Hm). split; [|split; [done|]].
    + unfold onMessage, get_prop. by rewrite Hv, Hid, Hm.
    + intros (props' & -> & Hv' & Hid' & Hm').
      unfold onMessages, onMessage, get_prop.
      by rewrite Hv, Hid, Hm, Hv', Hid', Hm'.
Qed.

Lemma ping_and_initialize_need_no_initialization_witness :
  (onMessages (js "EnsoAI") false
     [request "initialize" (JStr (js "a")); request "tools/list" (JStr (js "b"))]).2
  = [[Result (JStr (js "a")) (initialize_result (js "EnsoAI"))];
     [Error (JStr (js "b")) (-32002) (Lit "Server not initialized")]].
Proof.
  apply (proj2 (ping_and_initialize_need_no_initialization (js "EnsoAI") false
                  (request "initialize" (JStr (js "a")))
                  (request "tools/list" (JStr (js "b")))
                  (JStr (js "a")) (JStr (js "b")))).
  - apply request_is_request.
  - apply request_is_request.
Defined.

(** X22. Before [notifications/initialized], every request but [ping] and
    [initialize] is refused with the error -32002 and the id of the
    request, whatever its method, known, unknown or missing. *)
Theorem requests_refused_before_initialized (ideName : jsstring)
    (msg : option json) (id : json) :
  request_id msg = Some id →
  method_among ["ping"; "initialize"]%string msg = false →
  onMessage ideName false msg
    = (false, [Error id (-32002) (Lit "Server not initialized")]).
Proof.
  intros (m & -> & Ht & Hv & Hid)%request_id_envelope Hm.
  unfold method_among, method_of in Hm. simpl in Hm.
  apply orb_false_iff in Hm as [Hp [Hi _]%orb_false_iff].
  unfold onMessage. by rewrite Ht, Hv, Hid, Hp, Hi.
Qed.

Lemma requests_refused_before_initialized_witness :
  onMessage (js "EnsoAI") false (request "resources/list" (JStr (js "r")))
  = (false, [Error (JStr (js "r")) (-32002) (Lit "Server not initialized")]).
Proof.
  apply (requests_refused_before_initialized (js "EnsoAI")
           (request "resources/list" (JStr (js "r"))) (JStr (js "r")));
    reflexivity.
Defined.



End JsonRpcMore.

(** ** Further properties of the bridge server *)
Module BridgeMore.
Import JsonRpc Bridge JsonRpcSpec JsonRpcProofs BridgeSpec BridgeProofs BridgeMoreSpec.

Lemma onConnection_first b :
  currentClient b = None →
  onConnection (Some (authToken b)) b =
  ({| ideName := ideName b; authToken := authToken b; initialized := initialized b;
      currentClient := Some (length (sockets b));
      sockets := sockets b ++ [{| state := OPEN; listening := true |}] |},
   []).
Proof.
  intros Hc. unfold onConnection. simpl.
  rewrite bool_decide_eq_false_2 by (intros ?; done). rewrite Hc. simpl.
  f_equal. f_equal.
  replace (length (sockets b)) with (length (sockets b) + 0) at 1 by lia.
  by rewrite alter_app_r.
Qed.

(** A message changes nothing of the bridge but the flag. *)
Lemma onSocketMessage_keeps ws msg b :
  sockets (onSocketMessage ws msg b).1 = sockets b ∧
  currentClient (onSocketMessage ws msg b).1 = currentClient b ∧
  authToken (onSocketMessage ws msg b).1 = authToken b ∧
  ideName (onSocketMessage ws msg b).1 = ideName b.
Proof.
  unfold onSocketMessage. destruct (sockets b !! ws); [|done].
  destruct (_ && _); [|done]. by destruct (onMessage _ _ _).
Qed.

(** The handler sends responses only. *)
Lemma onMessage_no_notification ideName i msg f :
  f ∈ (onMessage ideName i msg).2 → is_notification f = false.
Proof.
  unfold onMessage. repeat case_match; simpl; intros Hin;
    first [by apply elem_of_nil in Hin | apply list_elem_of_singleton in Hin; by subst].
Qed.

Lemma sendNotification_keeps method params b :
  (sendNotification method params b).1 = b.
Proof. unfold sendNotification. repeat case_match; done. Qed.

Lemma server_invariant_start ideName tok :
  server_invariant (startClaudeIdeBridge ideName tok).
Proof. split; [|split]; intros ?; done. Qed.

Lemma server_invariant_step e b :
  server_invariant b → server_invariant (step e b).1.
Proof.
  intros (Hk & Hs & Hl). split; [by apply client_known_step|].
  destruct e as [token|ws msg|ws|m p]; simpl.
  - destruct (decide (token = Some (authToken b))) as [->|Hne].
    + destruct (currentClient b) as [c|] eqn:Hc.
      * rewrite (onConnection_authorized b c Hk Hc). simpl.
        pose proof (Hk c Hc) as Hlt. split.
        -- intros w s Hw Hlis Hop. apply lookup_snoc_Some in Hw as [[Hw1 Hw2]|[-> _]];
             [|by rewrite length_alter].
           exfalso. rewrite length_alter in Hw1.
           destruct (decide (c = w)) as [->|Hcw].
           ++ rewrite list_lookup_alter_eq in Hw2.
              destruct (sockets b !! w) as [[st ?]|]; simpl in Hw2; [|done].
              injection Hw2 as <-. simpl in Hop. by destruct st.
           ++ rewrite list_lookup_alter_ne in Hw2 by done.
              specialize (Hs w s Hw2 Hlis Hop). congruence.
        -- intros c' [= <-]. eexists.
           split; [apply list_lookup_middle; by rewrite length_alter|done].
      * rewrite (onConnection_first b Hc). simpl. split.
        -- intros w s Hw Hlis Hop. apply lookup_snoc_Some in Hw as [[Hw1 Hw2]|[-> _]];
             [|done].
           specialize (Hs w s Hw2 Hlis Hop). congruence.
        -- intros c' [= <-]. eexists. split; [by apply list_lookup_middle|done].
    + rewrite (onConnection_unauthorized token b Hne). simpl. split.
      * intros w s Hw Hlis Hop. apply lookup_snoc_Some in Hw as [[Hw1 Hw2]|[_ <-]];
          [|done].
        by apply (Hs w s).
      * intros c Hc. destruct (Hl c Hc) as (s & Hsc & Hlis). exists s. split; [|done].
        simpl. rewrite lookup_app_l; [done|]. by eapply lookup_lt_Some.
  - destruct (onSocketMessage_keeps ws msg b) as (Hso & Hcu & _).
    split.
    + intros w s. rewrite Hso, Hcu. apply Hs.
    + intros c. rewrite Hso, Hcu. apply Hl.
  - unfold onSocketClose. destruct (sockets b !! ws) as [s0|] eqn:Hws; [|done].
    case_bool_decide as Hst; [|done]. simpl.
    assert (∀ w s, alter closed ws (sockets b) !! w = Some s →
                   listening s = true → state s = OPEN →
                   currentClient b = Some w ∧ w ≠ ws) as Hopen.
    { intros w s Hw Hlis Hop. destruct (decide (ws = w)) as [->|Hne].
      - rewrite list_lookup_alter_eq, Hws in Hw. injection Hw as <-. done.
      - rewrite list_lookup_alter_ne in Hw by done. split; [by apply (Hs w s)|done]. }
    assert (∀ c, currentClient b = Some c →
                 ∃ s, alter closed ws (sockets b) !! c = Some s ∧ listening s = true)
      as Hlis'.
    { intros c Hc. destruct (Hl c Hc) as (s & Hsc & Hlis).
      destruct (decide (ws = c)) as [->|Hne].
      - rewrite list_lookup_alter_eq, Hsc. eexists. split; [done|]. done.
      - rewrite list_lookup_alter_ne by done. eauto. }
    destruct (listening s0 && bool_decide (currentClient b = Some ws)) eqn:Hcur; simpl.
    + split.
      * intros w s Hw Hlis Hop. destruct (Hopen w s Hw Hlis Hop) as [Hc Hne].
        apply andb_true_iff in Hcur as [_ Hcur%bool_decide_eq_true]. congruence.
      * intros c. done.
    + split.
      * intros w s Hw Hlis Hop. by destruct (Hopen w s Hw Hlis Hop).
      * done.
  - rewrite sendNotification_keeps. done.
Qed.

Lemma server_invariant_reachable ideName tok b :
  reachable ideName tok b → server_invariant b ∧ authToken b = tok.
Proof.
  intros [es ->]. split; [|apply after_authToken]. unfold after.
  generalize (server_invariant_start ideName tok).
  generalize (startClaudeIdeBridge ideName tok).
  induction es as [|e es IH]; intros b Hb; simpl; [done|].
  pose proof (server_invariant_step e b Hb) as H1.
  destruct (step e b) as [b1 c1]. specialize (IH b1 H1).
  by destruct (run es b1).
Qed.

(** X24. The bridge keeps a single active peer: in every state it can
    reach, a socket that it listens to and that is open is the current
    client, so that no two authorized sockets are open at once, and the
    current client is always a socket that presented the token. *)
Theorem single_active_peer (ideName tok : jsstring) (b : bridge) :
  reachable ideName tok b →
  single_open_peer b ∧ client_listens b ∧
  ∀ w w' s s', sockets b !! w = Some s → sockets b !! w' = Some s' →
    listening s = true → listening s' = true →
    state s = OPEN → state s' = OPEN → w = w'.
Proof.
  intros Hr. destruct (server_invariant_reachable _ _ _ Hr) as [(_ & Hs & Hl) _].
  split; [done|]. split; [done|].
  intros w w' s s' Hw Hw' Hlis Hlis' Hop Hop'.
  pose proof (Hs w s Hw Hlis Hop) as H1. pose proof (Hs w' s' Hw' Hlis' Hop') as H2.
  congruence.
Qed.

Lemma single_active_peer_witness :
  single_open_peer (after two_clients (startClaudeIdeBridge (js "EnsoAI") secret)).
Proof.
  apply (single_active_peer (js "EnsoAI") secret). by exists two_clients.
Defined.

(** A message is answered on the socket it came from and changes
    nothing but the flag: the calls it causes are responses sent on that
    socket, never a notification, never a close, and the sockets and the
    current client stay as they are.  A socket that has been displaced but
    is not yet closed is still answered. *)
Theorem message_answered_on_its_socket (ws : nat) (msg : option json) (b : bridge) :
  sockets (step (Message ws msg) b).1 = sockets b ∧
  currentClient (step (Message ws msg) b).1 = currentClient b ∧
  (step (Message ws msg) b).2 =
    (if receives ws b
     then map (Send ws) (onMessage (ideName b) (initialized b) msg).2
     else []) ∧
  ∀ c, c ∈ (step (Message ws msg) b).2 → ∃ f, c = Send ws f ∧ is_notification f = false.
Proof.
  destruct (onSocketMessage_keeps ws msg b) as (Hso & Hcu & _).
  split; [done|]. split; [done|].
  assert ((step (Message ws msg) b).2 =
          (if receives ws b
           then map (Send ws) (onMessage (ideName b) (initialized b) msg).2
           else [])) as Hcalls.
  { simpl. unfold onSocketMessage, receives. destruct (sockets b !! ws); [|done].
    destruct (_ && _); [|done]. by destruct (onMessage _ _ _). }
  split; [done|].
  intros [w f|w code] Hin.
  - rewrite Hcalls in Hin.
    destruct (receives ws b); [|by apply elem_of_nil in Hin].
    apply list_elem_of_fmap in Hin as (f' & [= -> ->] & Hf).
    exists f'. split; [done|]. by apply (onMessage_no_notification _ _ _ _ Hf).
  - exfalso. rewrite Hcalls in Hin.
    destruct (receives ws b); [|by apply elem_of_nil in Hin].
    apply list_elem_of_fmap in Hin as (f' & [=] & _).
Qed.

(** With no current client and no new authorized connection, there stays
    none, and no notification is sent. *)
Lemma no_client_step tok e b :
  currentClient b = None ∧ authToken b = tok →
  negb (authorized tok e) = true →
  (currentClient (step e b).1 = None ∧ authToken (step e b).1 = tok) ∧
  ∀ c, c ∈ (step e b).2 →
    match c with Send w f => is_notification f = false | Close _ _ => True end.
Proof.
  intros [Hc Htok] He. apply negb_true_iff in He. split; [split|].
  - destruct (step_currentClient e b) as [H|[H|[Ha _]]]; [congruence|done|congruence].
  - by rewrite step_authToken.
  - intros [w f|w code] Hin; [|done].
    apply step_calls in Hin as [[Hf _]|[_ Hcur]]; [done|congruence].
Qed.

(** X25. When the current client closes, the bridge has no client any more:
    the close event makes no call, and until another client is let in no
    notification is sent to any socket, [sendNotification] being silent.
    The close event of any other socket leaves the current client in
    place. *)
Theorem closed_client_drops_notifications (ideName tok : jsstring) (b : bridge)
    (c : nat) (s : socket) (es : list event) :
  reachable ideName tok b →
  currentClient b = Some c → sockets b !! c = Some s → state s ≠ CLOSED →
  let b1 := (step (Closed c) b).1 in
  currentClient b1 = None ∧ (step (Closed c) b).2 = [] ∧
  (forallb (fun e => negb (authorized tok e)) es = true →
   ∀ w f, Send w f ∈ calls es b1 → is_notification f = false) ∧
  (∀ w, w ≠ c → currentClient (step (Closed w) b).1 = Some c).
Proof.
  intros Hr Hc Hs Hst b1.
  destruct (server_invariant_reachable _ _ _ Hr) as [(_ & _ & Hl) Htok].
  destruct (Hl c Hc) as (s' & Hs' & Hlis). rewrite Hs in Hs'. injection Hs' as <-.
  assert (step (Closed c) b =
          (set_currentClient None (set_sockets (alter closed c (sockets b)) b), []))
    as Hstep.
  { simpl. unfold onSocketClose. rewrite Hs. rewrite bool_decide_eq_true_2 by done.
    simpl. rewrite Hlis, Hc. by rewrite bool_decide_eq_true_2. }
  subst b1. rewrite Hstep. simpl. split; [done|]. split; [done|]. split.
  - intros Hes w f Hin.
    destruct (run_invariant (fun b' => currentClient b' = None ∧ authToken b' = tok)
                (fun e => negb (authorized tok e))
                (fun c => match c with
                          | Send w f => is_notification f = false
                          | Close _ _ => True
                          end))
      with (es := es)
           (b := set_currentClient None (set_sockets (alter closed c (sockets b)) b))
      as [_ Hcalls]; auto.
    + intros e b' Hb' He. by apply no_client_step.
    + apply (Hcalls _ Hin).
  - intros w Hw. unfold onSocketClose.
    destruct (sockets b !! w) as [sw|]; [|done].
    case_bool_decide; [|done]. simpl. rewrite Hc.
    rewrite (bool_decide_eq_false_2 (Some c = Some w)) by (intros [= ?]; done).
    by rewrite andb_false_r.
Qed.

Lemma closed_client_drops_notifications_witness :
  currentClient
    (step (Closed 1) (after two_clients (startClaudeIdeBridge (js "EnsoAI") secret))).1
  = None.
Proof.
  apply (closed_client_drops_notifications (js "EnsoAI") secret
           (after two_clients (startClaudeIdeBridge (js "EnsoAI") secret))
           1 {| state := OPEN; listening := true |} []).
  - by exists two_clients.
  - reflexivity.
  - reflexivity.
  - discriminate.
Defined.

End BridgeMore.

(** ** Properties of the instance and the singleton *)
Module BridgeHostProofs.
Import LockFile LockFileSpec LockFileMoreSpec BridgeHost BridgeHostSpec.

Lemma js_read_back (s : string) :
  string_of_list_ascii (map ascii_of_N (js s)) = s.
Proof.
  unfold js. rewrite map_map.
  rewrite (map_ext _ (fun a => a)) by (intros a; apply ascii_N_embedding).
  rewrite map_id. apply string_of_list_ascii_of_string.
Qed.

(** The decimal numeral of a number reads back as the number. *)
Lemma read_decimal_decimal (n : nat) : read_decimal (decimal n) = Some n.
Proof.
  unfold read_decimal, decimal. rewrite js_read_back, NilEmpty.usu.
  by rewrite DecimalNat.Unsigned.of_to.
Qed.

(** X26. Each port has its own lock file name: the names of two ports are
    the same only when the ports are. *)
Theorem lock_name_injective (port1 port2 : nat) :
  lock_name port1 = lock_name port2 → port1 = port2.
Proof.
  unfold lock_name. intros H%app_inv_tail.
  apply (f_equal read_decimal) in H. rewrite !read_decimal_decimal in H.
  by injection H.
Qed.

Lemma lock_name_injective_witness : 4242 = 4242.
Proof. apply (lock_name_injective 4242 4242). reflexivity. Defined.

(** X27. [setEnvForChild] gives the child the port and the switch of the
    integration, whatever the environment held for them, and every other
    variable as it is; the port read back from [CLAUDE_CODE_SSE_PORT] is the
    port of the instance. *)
Theorem setEnvForChild_spec (this : ClaudeIdeBridgeInstance) (env : ProcessEnv)
    (name : jsstring) :
  setEnvForChild this env !! js "ENABLE_IDE_INTEGRATION" = Some (Some (js "true")) ∧
  (∃ v, setEnvForChild this env !! js "CLAUDE_CODE_SSE_PORT" = Some (Some v) ∧
        read_decimal v = Some (port this)) ∧
  (name ≠ js "ENABLE_IDE_INTEGRATION" → name ≠ js "CLAUDE_CODE_SSE_PORT" →
   setEnvForChild this env !! name = env !! name) ∧
  setEnvForChild this (setEnvForChild this env) = setEnvForChild this env.
Proof.
  unfold setEnvForChild. split; [apply lookup_insert_eq|]. split; [|split].
  - exists (decimal (port this)). split; [|apply read_decimal_decimal].
    rewrite lookup_insert_ne by (vm_compute; discriminate).
    apply lookup_insert_eq.
  - intros H1 H2. by rewrite !lookup_insert_ne.
  - apply map_eq. intros k.
    destruct (decide (k = js "ENABLE_IDE_INTEGRATION")) as [->|H1];
      [by rewrite !lookup_insert_eq|].
    rewrite !(lookup_insert_ne _ (js "ENABLE_IDE_INTEGRATION")) by done.
    destruct (decide (k = js "CLAUDE_CODE_SSE_PORT")) as [->|H2];
      [by rewrite !lookup_insert_eq|].
    rewrite !(lookup_insert_ne _ (js "CLAUDE_CODE_SSE_PORT")) by done.
    by rewrite !lookup_insert_ne.
Qed.

Section Host.

Variable path_join : list jsstring -> jsstring.
Variable JSON_stringify : json -> jsstring.
Variable proc : process.

Local Abbreviation enable := (setClaudeBridgeEnabled path_join JSON_stringify proc true).
Local Abbreviation disable :=
  (setClaudeBridgeEnabled path_join JSON_stringify proc false).
Local Abbreviation published := (BridgeHostSpec.published path_join JSON_stringify proc).

(** What [writeLockFile_fs] has written when it returns. *)
Lemma writeLockFile_fs_ok (port : nat) (tok : jsstring) (folders : list jsstring)
    (name : jsstring) (fs fs1 : filesystem) (p : jsstring) :
  writeLockFile_fs path_join JSON_stringify proc port tok folders name fs = (fs1, Ok p) →
  p = path_join [getIdeDir path_join proc; lock_name port] ∧
  ∃ mode, fs1 !! p = Some (File (JSON_stringify (payload_object
                                   (lock_payload proc tok folders name))) mode).
Proof.
  unfold writeLockFile_fs, ensureDir, mkdirSync, writeFileSync.
  set (dir := getIdeDir path_join proc). set (lp := path_join [dir; lock_name port]).
  destruct (fs !! dir) as [[]|]; simpl; try done.
  - destruct (fs !! lp) as [[]|]; simpl; try done;
      intros [= <- <-]; (split; [done|]); eexists; apply lookup_insert_eq.
  - destruct (<[dir:=Dir mode_700]> fs !! lp) as [[]|]; simpl; try done;
      intros [= <- <-]; (split; [done|]); eexists; apply lookup_insert_eq.
Qed.

(** [writeLockFile_fs] is [writeLockFile], with the file system kept when
    it throws. *)
Lemma writeLockFile_fs_agrees (port : nat) (tok : jsstring) (folders : list jsstring)
    (name : jsstring) (fs : filesystem) :
  writeLockFile path_join JSON_stringify proc port tok (Some folders) (Some name) fs =
  match writeLockFile_fs path_join JSON_stringify proc port tok folders name fs with
  | (fs1, Ok p) => Ok (fs1, p)
  | (_, Throw e) => Throw e
  end.
Proof.
  unfold writeLockFile, writeLockFile_fs. simpl.
  destruct (ensureDir _ fs) as [fs1|e]; simpl; [|done].
  destruct (writeFileSync _ _ _ fs1); done.
Qed.

Lemma start_published (options : ClaudeIdeBridgeOptions) (uuid : jsstring)
    (listen : result nat) (h : host) (fs : filesystem) (i : ClaudeIdeBridgeInstance) :
  startClaudeIdeBridge path_join JSON_stringify proc options uuid listen (files h)
    = (fs, Ok i) →
  published (set_instance (Some i) fs h).
Proof.
  unfold startClaudeIdeBridge. destruct listen as [port|]; [|done].
  destruct (writeLockFile_fs _ _ _ _ _ _ _ _) as [fs1 [p|]] eqn:Hw; [|done].
  intros [= <- <-]. apply writeLockFile_fs_ok in Hw as [-> Hf]. done.
Qed.

Lemma update_published (folders : list jsstring) (h : host)
    (i i' : ClaudeIdeBridgeInstance) (fs : filesystem) :
  published h → bridgeInstance h = Some i →
  updateWorkspaceFolders path_join JSON_stringify proc folders i (files h)
    = (i', fs, Ok tt) →
  published (set_instance (Some i') fs h).
Proof.
  unfold BridgeHostSpec.published. intros Hp Hi. rewrite Hi in Hp.
  destruct Hp as [Hl _]. unfold updateWorkspaceFolders. simpl.
  destruct (writeLockFile_fs _ _ _ _ _ _ _ _) as [fs1 [p|]] eqn:Hw; [|done].
  intros [= <- <-]. apply writeLockFile_fs_ok in Hw as [-> Hf]. simpl.
  rewrite Hl. done.
Qed.

Lemma perform_published (op : operation) (h h' : host) :
  published h → perform path_join JSON_stringify proc op h = (h', true) →
  published h'.
Proof.
  intros Hp. destruct op as [[] folders uuid listen|options uuid listen| |folders|options];
    simpl.
  - unfold setClaudeBridgeEnabled.
    destruct (bridgeInstance h) as [i|] eqn:Hi.
    + destruct folders as [f|]; [|by intros [= <-]].
      destruct (updateWorkspaceFolders _ _ _ f i (files h)) as [[i' fs] [[]|]] eqn:Hu;
        [|done].
      intros [= <-]. by eapply update_published.
    + destruct (startClaudeIdeBridge _ _ _ _ _ _ _) as [fs [i|]] eqn:Hs; [|done].
      intros [= <-]. by eapply start_published.
  - unfold setClaudeBridgeEnabled. destruct (bridgeInstance h); by intros [= <-].
  - unfold initClaudeIdeBridge. destruct (bridgeInstance h) as [i|] eqn:Hi;
      [by intros [= <-]|].
    destruct (startClaudeIdeBridge _ _ _ _ _ _ _) as [fs [i|]] eqn:Hs; [|done].
    intros [= <-]. by eapply start_published.
  - unfold disposeClaudeIdeBridge. destruct (bridgeInstance h); by intros [= <-].
  - unfold updateClaudeWorkspaceFolders. destruct (bridgeInstance h) as [i|] eqn:Hi;
      [|by intros [= <-]].
    destruct (updateWorkspaceFolders _ _ _ folders i (files h)) as [[i' fs] [[]|]] eqn:Hu;
      [|done].
    intros [= <-]. by eapply update_published.
  - intros [= <-]. done.
Qed.

(** X28. The discovery record follows the bridge: after any sequence of
    calls of the functions of the module that all return normally, starting
    from the module as loaded, the lock file of the running bridge, if there
    is one, is at the path of its port and holds its token, its name and its
    current workspace folders. *)
Theorem discovery_record_follows_bridge (fs : filesystem) (ops : list operation)
    (h : host) :
  perform_all path_join JSON_stringify proc ops (loaded fs) = (h, true) →
  published h.
Proof.
  assert (published (loaded fs)) as Hl by done. revert Hl.
  generalize (loaded fs). induction ops as [|op ops IH]; intros h0 Hp; simpl.
  - by intros [= <-].
  - destruct (perform _ _ _ op h0) as [h1 ok1] eqn:H1.
    destruct (perform_all _ _ _ ops h1) as [h2 ok2] eqn:H2.
    intros [= <- [-> ->]%andb_true_iff].
    apply (IH h1); [by eapply perform_published|done].
Qed.

(** X29. Enabling is idempotent: with a bridge running, enabling again
    without folders, or asking for the singleton, changes nothing, whatever
    token and port are on offer; and an enabling that returns leaves a bridge
    running whose status is enabled with its port, the bridge that was
    running, with its port, token and lock path, when there was one. *)
Theorem enable_is_idempotent (h h' : host) (folders : option (list jsstring))
    (options : option ClaudeIdeBridgeOptions) (uuid : jsstring) (listen : result nat) :
  (∀ i, bridgeInstance h = Some i →
        enable None uuid listen h = (h, Ok true) ∧
        initClaudeIdeBridge path_join JSON_stringify proc options uuid listen h
          = (h, Ok i)) ∧
  (enable folders uuid listen h = (h', Ok true) →
   ∃ i', bridgeInstance h' = Some i' ∧
         getClaudeBridgeStatus h' = (true, Some (port i')) ∧
         match bridgeInstance h with
         | Some i => port i' = port i ∧ authToken i' = authToken i ∧
                     lockPath i' = lockPath i ∧ ideName i' = ideName i
         | None => listen = Ok (port i') ∧ authToken i' = uuid ∧
                   currentWorkspaceFolders i' = default [] folders
         end).
Proof.
  split.
  - intros i Hi. unfold setClaudeBridgeEnabled, initClaudeIdeBridge. by rewrite Hi.
  - unfold setClaudeBridgeEnabled, getClaudeBridgeStatus.
    destruct (bridgeInstance h) as [i|] eqn:Hi.
    + destruct folders as [f|].
      * unfold updateWorkspaceFolders.
        destruct (writeLockFile_fs _ _ _ _ _ _ _ _) as [fs1 [p|]]; [|done].
        intros [= <-]. eexists. simpl. split; [done|]. done.
      * intros [= <-]. exists i. rewrite Hi. done.
    + unfold startClaudeIdeBridge. destruct listen as [port|]; [|done].
      destruct (writeLockFile_fs _ _ _ _ _ _ _ _) as [fs1 [p|]]; [|done].
      intros [= <-]. eexists. simpl. split; [done|]. done.
Qed.

(** X30. Disabling never fails and is idempotent: it returns [false], leaves
    no bridge and a status that is disabled with no port, and doing it again
    changes nothing; and when the lock file of the running bridge was in
    place, it is gone. *)
Theorem disable_retracts (h : host) (uuid : jsstring) (listen : result nat)
    (folders : option (list jsstring)) :
  let h' := (disable folders uuid listen h).1 in
  disable folders uuid listen h = (disposeClaudeIdeBridge path_join proc h, Ok false) ∧
  getClaudeBridgeStatus h' = (false, None) ∧
  disable folders uuid listen h' = (h', Ok false) ∧
  (published h →
   ∀ i, bridgeInstance h = Some i → existsSync (lockPath i) (files h') = false).
Proof.
  unfold setClaudeBridgeEnabled, disposeClaudeIdeBridge, getClaudeBridgeStatus.
  destruct (bridgeInstance h) as [i|] eqn:Hi; simpl; rewrite ?Hi; simpl.
  - repeat split. intros Hp i' [= <-].
    unfold BridgeHostSpec.published in Hp. rewrite Hi in Hp.
    destruct Hp as [Hl [mode Hf]]. unfold dispose.
    rewrite Hl in Hf |- *.
    rewrite (LockFileProofs.deleteLockFile_file path_join proc (port i) _ _ _ Hf).
    unfold existsSync. rewrite lookup_delete_eq.
    apply bool_decide_eq_false_2. by intros [? ?].
  - repeat split; done.
Qed.

End Host.

Lemma setEnvForChild_spec_witness :
  setEnvForChild
    {| port := 4242; authToken := js "t0k"; lockPath := sample_lockPath;
       currentWorkspaceFolders := []; ideName := js "EnsoAI";
       server := Bridge.startClaudeIdeBridge (js "EnsoAI") (js "t0k") |}
    sample_env !! js "HOME" = Some (Some (js "/home/u")).
Proof.
  rewrite (proj1 (proj2 (proj2 (setEnvForChild_spec _ sample_env (js "HOME")))));
    vm_compute; first [reflexivity | discriminate].
Defined.

Lemma discovery_record_follows_bridge_witness :
  published sample_join sample_stringify sample_process
    (perform_all sample_join sample_stringify sample_process sample_session (loaded ∅)).1.
Proof.
  apply (discovery_record_follows_bridge sample_join sample_stringify sample_process
           ∅ sample_session).
  vm_compute. reflexivity.
Defined.

Lemma enable_is_idempotent_witness :
  ∃ i', bridgeInstance
          (setClaudeBridgeEnabled sample_join sample_stringify sample_process true
             (Some [js "/w"]) (js "t0k") (Ok 4242) (loaded ∅)).1 = Some i' ∧
        port i' = 4242 ∧ authToken i' = js "t0k".
Proof.
  destruct (proj2 (enable_is_idempotent sample_join sample_stringify sample_process
              (loaded ∅)
              (setClaudeBridgeEnabled sample_join sample_stringify sample_process true
                 (Some [js "/w"]) (js "t0k") (Ok 4242) (loaded ∅)).1
              (Some [js "/w"]) None (js "t0k") (Ok 4242)))
    as (i' & Hi & _ & Hl & Htok & _); [vm_compute; reflexivity|].
  exists i'. split; [exact Hi|]. split; [|exact Htok]. by injection Hl.
Defined.

Lemma enabled_host_published :
  published sample_join sample_stringify sample_process enabled_host.
Proof. split; [reflexivity|]. eexists. vm_compute. reflexivity. Qed.

Lemma disable_retracts_witness :
  existsSync sample_lockPath
    (files (setClaudeBridgeEnabled sample_join sample_stringify sample_process false
              None (js "x") (Ok 1) enabled_host).1) = false.
Proof.
  pose proof (disable_retracts sample_join sample_stringify sample_process
               enabled_host (js "x") (Ok 1) None) as H.
  cbv zeta in H. destruct H as (_ & _ & _ & H).
  apply (H enabled_host_published
           {| port := 4242; authToken := js "t0k"; lockPath := sample_lockPath;
              currentWorkspaceFolders := [js "/w"]; ideName := js "EnsoAI";
              server := Bridge.startClaudeIdeBridge (js "EnsoAI") (js "t0k") |}).
  vm_compute. reflexivity.
Defined.

End BridgeHostProofs.
